(** * Cierre de caja: the shift-closing form of [app.component.ts]

    A shallow embedding of the Angular component [AppComponent]: its
    signals become the fields of a record, its computed signals become
    functions of that record, and [submitForm] with its two HTTP callbacks
    and the [setTimeout] callback become state transformers over the
    component together with the requests in flight and the pending
    timers.  The per-row input handlers are modelled twice: on lists of
    rows, as the event loop uses them, and in module [JsHeap] on
    JavaScript arrays and objects in a heap, where copies, sharing and
    assignments outside the bounds are explicit.

    Numbers.  Every numeric input is read through [getNumberValue], which
    turns [NaN] into [null]; the form counts bank notes and amounts in
    pesos, and in the model of the component a JavaScript number is an
    integer of [Z], a [number | null] an [option Z] with [None] for
    [null].  That model is exact where the program rounds: the
    properties stated on it are about which entries, rows and states
    there are, and hold as they stand for binary64 numbers.  What
    [cashSubtotal] computes as a number is stated in module [Binary64],
    on binary64 floating-point numbers. *)

From stdpp Require Import base option list strings gmap pretty.
From Stdlib Require Import ZArith Lia PrimFloat.

Local Open Scope string_scope.
Local Open Scope list_scope.
Local Open Scope Z_scope.

(** ** Data structures *)

Record CashEntry : Type := mkCashEntry {
  denomination : option Z;
  quantity : option Z
}.

Record ExpenseEntry : Type := mkExpenseEntry {
  detail : string;
  amount : option Z
}.

Record LogEntry : Type := mkLogEntry {
  day : string;
  le_closerName : string;
  le_shift : string;
  accountingImputation : string;
  accountEntry : string;
  le_amount : Z
}.

Definition DEFAULT_CASH_ENTRIES : list CashEntry :=
  [ mkCashEntry (Some 20000) None;
    mkCashEntry (Some 10000) None;
    mkCashEntry (Some 2000) None ].

Inductive Status : Type := idle | sending | success | error.

#[global] Instance Status_eq_dec : EqDecision Status.
Proof. solve_decision. Defined.

#[global] Instance CashEntry_eq_dec : EqDecision CashEntry.
Proof. solve_decision. Defined.

#[global] Instance ExpenseEntry_eq_dec : EqDecision ExpenseEntry.
Proof. solve_decision. Defined.

#[global] Instance LogEntry_eq_dec : EqDecision LogEntry.
Proof. solve_decision. Defined.

(** The eight form-state signals.  [shift] is typed ['mañana' | 'tarde']
    in the source, but [onShiftChange] stores whatever string the select
    element carries and [submitForm] tests it for truthiness, so it is
    kept as a string. *)
Record FormState : Type := mkFormState {
  closerName : string;
  shift : string;
  firstDataIncome : option Z;
  pedidosYaIncome : option Z;
  mercadoPagoIncome : option Z;
  dailySummary : option Z;
  cashEntries : list CashEntry;
  expenses : list ExpenseEntry
}.

#[global] Instance FormState_eq_dec : EqDecision FormState.
Proof. solve_decision. Defined.

(** The component: form state, webhook status and history log. *)
Record AppComponent : Type := mkApp {
  form : FormState;
  webhookStatus : Status;
  webhookError : option string;
  logHistory : list LogEntry
}.

(** ** JavaScript operators used by the component *)

(** [x ?? d] on a [number | null]. *)
Definition nullish (x : option Z) (d : Z) : Z :=
  match x with Some v => v | None => d end.

Infix "??" := nullish (at level 45, left associativity).

(** Truthiness of a [number | null]: [null] and [0] are falsy. *)
Definition truthy_num (x : option Z) : bool :=
  match x with Some v => negb (v =? 0) | None => false end.

(** [x > 0] where [x] is a [number | null]; [null > 0] is false. *)
Definition gt0 (x : option Z) : bool :=
  match x with Some v => 0 <? v | None => false end.

(** Truthiness of a string: only the empty string is falsy. *)
Definition truthy_str (s : string) : bool :=
  match s with EmptyString => false | String _ _ => true end.

(** [x!] after a guard that made [x] a number. *)
Definition nonnull (x : option Z) : Z := x ?? 0.

(** [Array.prototype.reduce] with an initial value. *)
Definition reduce {A B : Type} (f : B -> A -> B) (init : B) (l : list A) : B :=
  fold_left f l init.

(** [Array.prototype.push] on the local array of [submitForm]. *)
Definition push {A : Type} (l : list A) (x : A) : list A := l ++ [x].

(** ** Computed signals

    On integers, where no operation rounds; [Binary64.cashSubtotal] below
    is the reduce of [cashSubtotal] on binary64 numbers. *)

Definition cashSubtotal (f : FormState) : Z :=
  reduce (fun acc entry =>
            let denomination := denomination entry ?? 0 in
            let quantity := quantity entry ?? 0 in
            acc + denomination * quantity)
         0 (cashEntries f).

Definition expensesSubtotal (f : FormState) : Z :=
  reduce (fun acc expense =>
            let amount := amount expense ?? 0 in
            acc + amount)
         0 (expenses f).

Definition digitalIncomeSubtotal (f : FormState) : Z :=
  let firstData := firstDataIncome f ?? 0 in
  let pedidosYa := pedidosYaIncome f ?? 0 in
  let mercadoPago := mercadoPagoIncome f ?? 0 in
  firstData + pedidosYa + mercadoPago.

Definition totalIncome (f : FormState) : Z :=
  digitalIncomeSubtotal f + cashSubtotal f.

Definition netTotal (f : FormState) : Z :=
  totalIncome f - expensesSubtotal f.

Definition absoluteTotal (f : FormState) : Z :=
  totalIncome f + expensesSubtotal f.

Definition difference (f : FormState) : Z :=
  absoluteTotal f - (dailySummary f ?? 0).

(** ** Real-time input handlers *)

(** [valueAsNumber] of an input element: [None] stands for [NaN]. *)
Definition getNumberValue (valueAsNumber : option Z) : option Z :=
  match valueAsNumber with
  | None => None
  | Some value => Some value
  end.

Definition getStringValue (value : string) : string := value.

Definition set_closerName (v : string) (f : FormState) : FormState :=
  mkFormState v (shift f) (firstDataIncome f) (pedidosYaIncome f)
    (mercadoPagoIncome f) (dailySummary f) (cashEntries f) (expenses f).

Definition set_shift (v : string) (f : FormState) : FormState :=
  mkFormState (closerName f) v (firstDataIncome f) (pedidosYaIncome f)
    (mercadoPagoIncome f) (dailySummary f) (cashEntries f) (expenses f).

Definition set_firstDataIncome (v : option Z) (f : FormState) : FormState :=
  mkFormState (closerName f) (shift f) v (pedidosYaIncome f)
    (mercadoPagoIncome f) (dailySummary f) (cashEntries f) (expenses f).

Definition set_pedidosYaIncome (v : option Z) (f : FormState) : FormState :=
  mkFormState (closerName f) (shift f) (firstDataIncome f) v
    (mercadoPagoIncome f) (dailySummary f) (cashEntries f) (expenses f).

Definition set_mercadoPagoIncome (v : option Z) (f : FormState) : FormState :=
  mkFormState (closerName f) (shift f) (firstDataIncome f) (pedidosYaIncome f)
    v (dailySummary f) (cashEntries f) (expenses f).

Definition set_dailySummary (v : option Z) (f : FormState) : FormState :=
  mkFormState (closerName f) (shift f) (firstDataIncome f) (pedidosYaIncome f)
    (mercadoPagoIncome f) v (cashEntries f) (expenses f).

Definition set_cashEntries (v : list CashEntry) (f : FormState) : FormState :=
  mkFormState (closerName f) (shift f) (firstDataIncome f) (pedidosYaIncome f)
    (mercadoPagoIncome f) (dailySummary f) v (expenses f).

Definition set_expenses (v : list ExpenseEntry) (f : FormState) : FormState :=
  mkFormState (closerName f) (shift f) (firstDataIncome f) (pedidosYaIncome f)
    (mercadoPagoIncome f) (dailySummary f) (cashEntries f) v.

Inductive CashField : Type := Fdenomination | Fquantity.

(** [{ ...entry, [field]: value }] on a cash row. *)
Definition withCashField (field : CashField) (value : option Z)
    (entry : CashEntry) : CashEntry :=
  match field with
  | Fdenomination => mkCashEntry value (quantity entry)
  | Fquantity => mkCashEntry (denomination entry) value
  end.

(** The three per-row handlers on lists of complete rows.  The index comes
    from the rendered rows; the result is [None] when it addresses no row,
    where the JavaScript assignment produces an array that is no longer a
    list of complete rows.  Module [JsHeap] below models the same handlers
    on JavaScript arrays and objects for every index. *)
Definition onCashEntryKeyup (index : nat) (field : CashField)
    (valueAsNumber : option Z) (entries : list CashEntry)
    : option (list CashEntry) :=
  let value := getNumberValue valueAsNumber in
  let newEntries := entries in
  match newEntries !! index with
  | Some old => Some (<[index := withCashField field value old]> newEntries)
  | None => None
  end.

Definition onExpenseDetailKeyup (index : nat) (v : string)
    (entries : list ExpenseEntry) : option (list ExpenseEntry) :=
  let value := getStringValue v in
  let newEntries := entries in
  match newEntries !! index with
  | Some old => Some (<[index := mkExpenseEntry value (amount old)]> newEntries)
  | None => None
  end.

Definition onExpenseAmountKeyup (index : nat) (valueAsNumber : option Z)
    (entries : list ExpenseEntry) : option (list ExpenseEntry) :=
  let value := getNumberValue valueAsNumber in
  let newEntries := entries in
  match newEntries !! index with
  | Some old => Some (<[index := mkExpenseEntry (detail old) value]> newEntries)
  | None => None
  end.

(** ** Dynamic form arrays *)

(** [entries.filter((x, i) => p x i)], scanning from index [i]. *)
Fixpoint filter_from {A : Type} (p : A -> nat -> bool) (i : nat)
    (entries : list A) : list A :=
  match entries with
  | [] => []
  | x :: rest =>
      if p x i then x :: filter_from p (S i) rest
      else filter_from p (S i) rest
  end.

Definition addCashEntry (entries : list CashEntry) : list CashEntry :=
  entries ++ [mkCashEntry None None].

Definition removeCashEntry (index : nat) (entries : list CashEntry)
    : list CashEntry :=
  filter_from (fun _ i => negb (i =? index)%nat) 0%nat entries.

Definition addExpense (entries : list ExpenseEntry) : list ExpenseEntry :=
  entries ++ [mkExpenseEntry "" None].

Definition removeExpense (index : nat) (entries : list ExpenseEntry)
    : list ExpenseEntry :=
  filter_from (fun _ i => negb (i =? index)%nat) 0%nat entries.

(** ** The ledger batch of [submitForm] *)

Definition MSG_VALIDATION : string :=
  "Por favor, complete su nombre y el turno antes de enviar.".
Definition MSG_EMPTY : string := "No hay movimientos para registrar.".
Definition MSG_DEFAULT : string := "Error al enviar. Intente de nuevo.".
Definition MSG_NETWORK : string := "Error de red/CORS. Verifique la conexión.".

(** The statements of [submitForm] between the validation and the test of
    [newLogEntries.length], with the local array threaded through. *)
Definition buildLogEntries (now : string) (this : FormState) : list LogEntry :=
  let newLogEntries : list LogEntry := [] in
  let closerName := closerName this in
  let shift := shift this in
  let newLogEntries :=
    if 0 <? (firstDataIncome this ?? 0)
    then push newLogEntries
           (mkLogEntry now closerName shift "Ventas con Tarjeta"
              "Ingreso: First Data" (nonnull (firstDataIncome this)))
    else newLogEntries in
  let newLogEntries :=
    if 0 <? (pedidosYaIncome this ?? 0)
    then push newLogEntries
           (mkLogEntry now closerName shift "Ventas Delivery"
              "Ingreso: PedidosYa" (nonnull (pedidosYaIncome this)))
    else newLogEntries in
  let newLogEntries :=
    if 0 <? (mercadoPagoIncome this ?? 0)
    then push newLogEntries
           (mkLogEntry now closerName shift "Ventas Digitales"
              "Ingreso: Mercado Pago" (nonnull (mercadoPagoIncome this)))
    else newLogEntries in
  let newLogEntries :=
    if 0 <? cashSubtotal this
    then push newLogEntries
           (mkLogEntry now closerName shift "Ventas en Efectivo"
              "Ingreso: Efectivo" (cashSubtotal this))
    else newLogEntries in
  let newLogEntries :=
    fold_left
      (fun newLogEntries expense =>
         if truthy_num (amount expense) && gt0 (amount expense)
            && truthy_str (detail expense)
         then push newLogEntries
                (mkLogEntry now closerName shift "Gastos Operativos"
                   ("Gasto: " +:+ detail expense)
                   (- nonnull (amount expense)))
         else newLogEntries)
      (expenses this) newLogEntries in
  let newLogEntries :=
    match dailySummary this with
    | Some summary =>
        push
          (push newLogEntries
             (mkLogEntry now closerName shift "Cierre"
                "Resumen Diario (Manual)" summary))
          (mkLogEntry now closerName shift "Cierre"
             "Diferencia de Caja" (difference this))
    | None => newLogEntries
    end in
  newLogEntries.

(** ** The component in its event loop *)

(** What a program does to the outside of the form, in the order it does
    it: every write to [webhookStatus] and [webhookError], every
    [http.post] with its body, every [setTimeout] with its delay. *)
Inductive Action : Type :=
  | StatusSet (s : Status)
  | ErrorSet (m : option string)
  | Post (body : list LogEntry)
  | Timeout (ms : Z).

(** The component, the requests that were posted and not yet answered
    (each with the batch its callbacks close over), the delays of the
    timers that were set and did not fire yet, and the actions so far. *)
Record World : Type := mkWorld {
  app : AppComponent;
  inflight : list (list LogEntry);
  timers : list Z;
  trace : list Action
}.

(** Programs are state transformers; [p ;; q] runs [p], then [q]. *)
Definition Prog : Type := World -> World.

Definition seq (p q : Prog) : Prog := fun w => q (p w).

Declare Scope prog_scope.
Delimit Scope prog_scope with prog.
Bind Scope prog_scope with Prog.
Notation "p ;; q" := (seq p q)
  (at level 100, q at level 200, right associativity) : prog_scope.
Local Open Scope prog_scope.

Definition webhookStatus_set (s : Status) : Prog := fun w =>
  mkWorld (mkApp (form (app w)) s (webhookError (app w)) (logHistory (app w)))
          (inflight w) (timers w) (trace w ++ [StatusSet s]).

Definition webhookError_set (m : option string) : Prog := fun w =>
  mkWorld (mkApp (form (app w)) (webhookStatus (app w)) m (logHistory (app w)))
          (inflight w) (timers w) (trace w ++ [ErrorSet m]).

Definition logHistory_update (f : list LogEntry -> list LogEntry) : Prog :=
  fun w =>
  mkWorld (mkApp (form (app w)) (webhookStatus (app w)) (webhookError (app w))
                 (f (logHistory (app w))))
          (inflight w) (timers w) (trace w).

Definition form_update (f : FormState -> FormState) : Prog := fun w =>
  mkWorld (mkApp (f (form (app w))) (webhookStatus (app w))
                 (webhookError (app w)) (logHistory (app w)))
          (inflight w) (timers w) (trace w).

Definition http_post (body : list LogEntry) : Prog := fun w =>
  mkWorld (app w) (inflight w ++ [body]) (timers w) (trace w ++ [Post body]).

Definition setTimeout (ms : Z) : Prog := fun w =>
  mkWorld (app w) (inflight w) (timers w ++ [ms]) (trace w ++ [Timeout ms]).

Definition resetForm : Prog :=
  form_update (set_closerName "") ;;
  form_update (set_shift "mañana") ;;
  form_update (set_firstDataIncome None) ;;
  form_update (set_pedidosYaIncome None) ;;
  form_update (set_mercadoPagoIncome None) ;;
  form_update (set_dailySummary None) ;;
  form_update (set_cashEntries DEFAULT_CASH_ENTRIES) ;;
  form_update (set_expenses [mkExpenseEntry "" None]).

(** [submitForm], up to and including the call of [http.post]. *)
Definition submitForm (now : string) : Prog :=
  webhookStatus_set sending ;;
  webhookError_set None ;;
  fun w =>
    let this := form (app w) in
    if negb (truthy_str (closerName this)) || negb (truthy_str (shift this))
    then (webhookStatus_set error ;;
          webhookError_set (Some MSG_VALIDATION)) w
    else
      let newLogEntries := buildLogEntries now this in
      if (length newLogEntries =? 0)%nat
      then (webhookStatus_set error ;;
            webhookError_set (Some MSG_EMPTY)) w
      else http_post newLogEntries w.

(** The [next] callback of the subscription. *)
Definition onNext (newLogEntries : list LogEntry) : Prog :=
  webhookStatus_set success ;;
  logHistory_update (fun currentLog => newLogEntries ++ currentLog) ;;
  resetForm ;;
  setTimeout 5000.

(** The message chosen by the [error] callback from [err.status]. *)
Definition errorMessage (err_status : Z) : string :=
  let message := MSG_DEFAULT in
  let message :=
    if err_status =? 0 then MSG_NETWORK
    else "Error del servidor: " +:+ pretty err_status +:+ "." in
  message.

(** The [error] callback of the subscription. *)
Definition onError (err_status : Z) : Prog :=
  webhookStatus_set error ;;
  webhookError_set (Some (errorMessage err_status)).

(** The callback given to [setTimeout]. *)
Definition onTimeout : Prog := webhookStatus_set idle.

(** What the event loop can deliver to the component. *)
Inductive Event : Type :=
  | NameKeyup (value : string)
  | ShiftChange (value : string)
  | FirstDataKeyup (valueAsNumber : option Z)
  | PedidosYaKeyup (valueAsNumber : option Z)
  | MercadoPagoKeyup (valueAsNumber : option Z)
  | DailySummaryKeyup (valueAsNumber : option Z)
  | CashEntryKeyup (index : nat) (field : CashField) (valueAsNumber : option Z)
  | ExpenseDetailKeyup (index : nat) (value : string)
  | ExpenseAmountKeyup (index : nat) (valueAsNumber : option Z)
  | AddCashEntry
  | RemoveCashEntry (index : nat)
  | AddExpense
  | RemoveExpense (index : nat)
  | Submit (now : string)
  | HttpNext (k : nat)
  | HttpError (k : nat) (err_status : Z)
  | TimerFires (k : nat).

(** Request [k] is answered: it leaves the list of requests in flight. *)
Definition answer (k : nat) (w : World) : option (list LogEntry * World) :=
  match inflight w !! k with
  | Some body =>
      Some (body, mkWorld (app w) (delete k (inflight w)) (timers w) (trace w))
  | None => None
  end.

(** Timer [k] fires: it leaves the list of pending timers. *)
Definition fire (k : nat) (w : World) : option World :=
  match timers w !! k with
  | Some _ => Some (mkWorld (app w) (inflight w) (delete k (timers w)) (trace w))
  | None => None
  end.

(** One turn of the event loop; [None] when the event cannot occur in
    this world (no such request or timer, no such row). *)
Definition step (e : Event) (w : World) : option World :=
  match e with
  | NameKeyup v => Some (form_update (set_closerName (getStringValue v)) w)
  | ShiftChange v => Some (form_update (set_shift v) w)
  | FirstDataKeyup v =>
      Some (form_update (set_firstDataIncome (getNumberValue v)) w)
  | PedidosYaKeyup v =>
      Some (form_update (set_pedidosYaIncome (getNumberValue v)) w)
  | MercadoPagoKeyup v =>
      Some (form_update (set_mercadoPagoIncome (getNumberValue v)) w)
  | DailySummaryKeyup v =>
      Some (form_update (set_dailySummary (getNumberValue v)) w)
  | CashEntryKeyup index field v =>
      match onCashEntryKeyup index field v (cashEntries (form (app w))) with
      | Some entries => Some (form_update (set_cashEntries entries) w)
      | None => None
      end
  | ExpenseDetailKeyup index v =>
      match onExpenseDetailKeyup index v (expenses (form (app w))) with
      | Some entries => Some (form_update (set_expenses entries) w)
      | None => None
      end
  | ExpenseAmountKeyup index v =>
      match onExpenseAmountKeyup index v (expenses (form (app w))) with
      | Some entries => Some (form_update (set_expenses entries) w)
      | None => None
      end
  | AddCashEntry =>
      Some (form_update (fun f => set_cashEntries (addCashEntry (cashEntries f)) f) w)
  | RemoveCashEntry index =>
      Some (form_update
              (fun f => set_cashEntries (removeCashEntry index (cashEntries f)) f) w)
  | AddExpense =>
      Some (form_update (fun f => set_expenses (addExpense (expenses f)) f) w)
  | RemoveExpense index =>
      Some (form_update
              (fun f => set_expenses (removeExpense index (expenses f)) f) w)
  | Submit now => Some (submitForm now w)
  | HttpNext k =>
      match answer k w with
      | Some (newLogEntries, w') => Some (onNext newLogEntries w')
      | None => None
      end
  | HttpError k err_status =>
      match answer k w with
      | Some (_, w') => Some (onError err_status w')
      | None => None
      end
  | TimerFires k =>
      match fire k w with
      | Some w' => Some (onTimeout w')
      | None => None
      end
  end.

Fixpoint run (es : list Event) (w : World) : option World :=
  match es with
  | [] => Some w
  | e :: es' =>
      match step e w with
      | Some w' => run es' w'
      | None => None
      end
  end.

(** The component as constructed: default form, status [idle], empty log. *)
Definition defaultForm : FormState :=
  mkFormState "" "mañana" None None None None
    DEFAULT_CASH_ENTRIES [mkExpenseEntry "" None].

Definition initialApp : AppComponent := mkApp defaultForm idle None [].

Definition initialWorld : World := mkWorld initialApp [] [] [].

(** ** The per-row handlers on JavaScript arrays and objects

    The handlers copy the array of the signal with a spread, build a new
    row object with an object spread, and assign it into the copy.  Here
    arrays and objects live in a heap and are reached through references,
    so that sharing between the old and the new array is explicit, and
    an array can have holes and a row can lack a property, as the results
    of an assignment past the end do. *)
Module JsHeap.

Definition loc : Type := nat.

Inductive jsval : Type :=
  | VUndefined
  | VNull
  | VNum (z : Z)
  | VStr (s : string)
  | VRef (l : loc).

(** One position of an array: a hole, or an element. *)
Inductive slot : Type :=
  | Hole
  | Elem (v : jsval).

(** An array: its elements, and the properties stored under integer
    keys that are not array indices (a negative key, or one from
    [2^32 - 1] on). *)
Record jsarray : Type := mkArray {
  arr_elems : list slot;
  arr_extra : gmap Z jsval
}.

Inductive hobj : Type :=
  | HObject (props : gmap string jsval)
  | HArray (arr : jsarray).

Definition alloc (o : hobj) (h : gmap loc hobj) : loc * gmap loc hobj :=
  let l := fresh (dom h) in (l, <[l := o]> h).

(** [2^32 - 1], the first integer that is not an array index. *)
Definition INDEX_LIMIT : Z := 4294967295.

Definition is_array_index (index : Z) : bool :=
  (0 <=? index) && (index <? INDEX_LIMIT).

(** [[...entries]]: a new array of the elements, where the iterator
    yields [undefined] at a hole; other properties are not copied. *)
Definition spread_array (arr : jsarray) : jsarray :=
  mkArray
    (map (fun s => match s with Hole => Elem VUndefined | Elem v => Elem v end)
         (arr_elems arr))
    ∅.

(** [arr[index]]. *)
Definition array_get (arr : jsarray) (index : Z) : jsval :=
  if is_array_index index then
    match arr_elems arr !! Z.to_nat index with
    | Some (Elem v) => v
    | Some Hole => VUndefined
    | None => VUndefined
    end
  else
    match arr_extra arr !! index with
    | Some v => v
    | None => VUndefined
    end.

(** The array after [arr[index] = v].  Past the end the array grows and
    the positions in between are holes.  When [index] is not an array
    index the value is stored under an ordinary property and the
    elements and the length stay as they are. *)
Definition array_set (index : Z) (v : jsval) (arr : jsarray) : jsarray :=
  if is_array_index index then
    let i := Z.to_nat index in
    if (i <? length (arr_elems arr))%nat
    then mkArray (<[i := Elem v]> (arr_elems arr)) (arr_extra arr)
    else mkArray (arr_elems arr
                  ++ replicate (i - length (arr_elems arr))%nat Hole
                  ++ [Elem v])
                 (arr_extra arr)
  else mkArray (arr_elems arr) (<[index := v]> (arr_extra arr)).

(** The own properties copied by [{ ...v }]: those of the object when
    [v] refers to one, none when [v] is [undefined], [null] or a number.
    Spreading a string or an array is not modelled ([None]). *)
Definition spread_object (h : gmap loc hobj) (v : jsval)
    : option (gmap string jsval) :=
  match v with
  | VUndefined | VNull | VNum _ => Some ∅
  | VStr _ => None
  | VRef l =>
      match h !! l with
      | Some (HObject props) => Some props
      | _ => None
      end
  end.

(** The function passed to [update] by each of the three handlers, on
    the array the signal refers to; the result is the reference the
    signal is set to, and the heap. *)
Definition update_row (index : Z) (field : string) (value : jsval)
    (entries : loc) (h : gmap loc hobj) : option (loc * gmap loc hobj) :=
  match h !! entries with
  | Some (HArray arr) =>
      let '(newEntries, h1) := alloc (HArray (spread_array arr)) h in
      let old := array_get (spread_array arr) index in
      match spread_object h1 old with
      | Some props =>
          let '(row, h2) := alloc (HObject (<[field := value]> props)) h1 in
          let h3 :=
            <[newEntries :=
                HArray (array_set index (VRef row) (spread_array arr))]> h2 in
          Some (newEntries, h3)
      | None => None
      end
  | _ => None
  end.

Definition of_number (x : option Z) : jsval :=
  match x with Some z => VNum z | None => VNull end.

Definition field_name (field : CashField) : string :=
  match field with
  | Fdenomination => "denomination"
  | Fquantity => "quantity"
  end.

Definition onCashEntryKeyup (index : Z) (field : CashField)
    (valueAsNumber : option Z) (cashEntries : loc) (h : gmap loc hobj)
    : option (loc * gmap loc hobj) :=
  let value := getNumberValue valueAsNumber in
  update_row index (field_name field) (of_number value) cashEntries h.

Definition onExpenseDetailKeyup (index : Z) (v : string)
    (expenses : loc) (h : gmap loc hobj) : option (loc * gmap loc hobj) :=
  let value := getStringValue v in
  update_row index "detail" (VStr value) expenses h.

Definition onExpenseAmountKeyup (index : Z) (valueAsNumber : option Z)
    (expenses : loc) (h : gmap loc hobj) : option (loc * gmap loc hobj) :=
  let value := getNumberValue valueAsNumber in
  update_row index "amount" (of_number value) expenses h.

(** The object of a complete row. *)
Definition cash_object (e : CashEntry) : gmap string jsval :=
  {[ "denomination" := of_number (denomination e);
     "quantity" := of_number (quantity e) ]}.

Definition expense_object (e : ExpenseEntry) : gmap string jsval :=
  {[ "detail" := VStr (detail e); "amount" := of_number (amount e) ]}.

(** The slot [s] refers to an object that is the row [r]. *)
Definition holds_row {A : Type} (obj : A -> gmap string jsval)
    (h : gmap loc hobj) (s : slot) (r : A) : Prop :=
  exists p, s = Elem (VRef p) /\ h !! p = Some (HObject (obj r)).

(** The array at [a] holds, element by element, references to objects
    that are the rows of [l]; its length is an array length. *)
Definition holds_rows {A : Type} (obj : A -> gmap string jsval)
    (h : gmap loc hobj) (a : loc) (l : list A) : Prop :=
  exists arr,
    h !! a = Some (HArray arr)
    /\ Z.of_nat (length (arr_elems arr)) <= INDEX_LIMIT
    /\ Forall2 (holds_row obj h) (arr_elems arr) l.

(** The outcome [res] of a handler on the array at [a], which held the
    rows [l]: a new array that holds the rows [l'], while the array at
    [a] still holds [l] and every object of the old heap is as it was. *)
Definition copy_on_write {A : Type} (obj : A -> gmap string jsval)
    (h : gmap loc hobj) (a : loc) (l l' : list A)
    (res : option (loc * gmap loc hobj)) : Prop :=
  exists a' h',
    res = Some (a', h')
    /\ h !! a' = None
    /\ holds_rows obj h' a' l'
    /\ holds_rows obj h' a l
    /\ (forall p o, h !! p = Some o -> h' !! p = Some o).

(** The references [alloc] gives to the new array and to the new row. *)
Definition newArrayRef (h : gmap loc hobj) : loc := fresh (dom h).

Definition newRowRef (h : gmap loc hobj) (arr : jsarray) : loc :=
  fresh (dom (<[newArrayRef h := HArray (spread_array arr)]> h)).

(** The three handlers as one: which field is written, with what. *)
Inductive RowUpdate : Type :=
  | CashKeyup (field : CashField) (valueAsNumber : option Z)
  | ExpenseDetail (value : string)
  | ExpenseAmount (valueAsNumber : option Z).

Definition handler (u : RowUpdate) (index : Z) (entries : loc)
    (h : gmap loc hobj) : option (loc * gmap loc hobj) :=
  match u with
  | CashKeyup field v => onCashEntryKeyup index field v entries h
  | ExpenseDetail v => onExpenseDetailKeyup index v entries h
  | ExpenseAmount v => onExpenseAmountKeyup index v entries h
  end.

Definition updated_field (u : RowUpdate) : string :=
  match u with
  | CashKeyup field _ => field_name field
  | ExpenseDetail _ => "detail"
  | ExpenseAmount _ => "amount"
  end.

Definition updated_value (u : RowUpdate) : jsval :=
  match u with
  | CashKeyup _ v => of_number (getNumberValue v)
  | ExpenseDetail v => VStr (getStringValue v)
  | ExpenseAmount v => of_number (getNumberValue v)
  end.

(** What a computation on the heap ends in: a value, a [TypeError]
    thrown, or a case this model does not cover. *)
Inductive outcome (A : Type) : Type :=
  | Returns (a : A)
  | TypeError
  | NotModelled.

Arguments Returns {A} a.
Arguments TypeError {A}.
Arguments NotModelled {A}.

(** [x ?? 0] for the value [x] of a property read, [None] standing for
    a property the object does not have; a number for a number, 0 for
    [undefined], [null] and a missing property. *)
Definition number_or_zero (x : option jsval) : option Z :=
  match x with
  | None | Some VUndefined | Some VNull => Some 0
  | Some (VNum z) => Some z
  | Some (VStr _) | Some (VRef _) => None
  end.

(** The callback of [cashSubtotal] on the accumulator and one element.
    Reading a property of [undefined] or [null] throws; a number, a
    string or an array has no property [denomination] or [quantity]. *)
Definition cash_callback (h : gmap loc hobj) (acc : Z) (entry : jsval)
    : outcome Z :=
  match entry with
  | VUndefined | VNull => TypeError
  | VNum _ | VStr _ => Returns (acc + 0 * 0)
  | VRef l =>
      match h !! l with
      | Some (HObject props) =>
          match number_or_zero (props !! "denomination"),
                number_or_zero (props !! "quantity") with
          | Some denomination, Some quantity =>
              Returns (acc + denomination * quantity)
          | _, _ => NotModelled
          end
      | Some (HArray _) => Returns (acc + 0 * 0)
      | None => NotModelled
      end
  end.

(** [Array.prototype.reduce] with an initial value: the callback is
    called on the elements in order and is not called for a hole. *)
Fixpoint reduce_slots (f : Z -> jsval -> outcome Z) (acc : Z)
    (elems : list slot) : outcome Z :=
  match elems with
  | [] => Returns acc
  | Hole :: rest => reduce_slots f acc rest
  | Elem v :: rest =>
      match f acc v with
      | Returns acc' => reduce_slots f acc' rest
      | TypeError => TypeError
      | NotModelled => NotModelled
      end
  end.

(** The computed signal [cashSubtotal] on the array the signal
    [cashEntries] refers to. *)
Definition cashSubtotal (cashEntries : loc) (h : gmap loc hobj) : outcome Z :=
  match h !! cashEntries with
  | Some (HArray arr) => reduce_slots (cash_callback h) 0 (arr_elems arr)
  | _ => NotModelled
  end.

(** A heap with the default cash rows: the array at 0, its rows at 1, 2
    and 3. *)
Definition seedRows : jsarray :=
  mkArray [Elem (VRef 1%nat); Elem (VRef 2%nat); Elem (VRef 3%nat)] ∅.

Definition seedHeap : gmap loc hobj :=
  <[0%nat := HArray seedRows]>
  (<[1%nat := HObject (cash_object (mkCashEntry (Some 20000) None))]>
  (<[2%nat := HObject (cash_object (mkCashEntry (Some 10000) None))]>
  (<[3%nat := HObject (cash_object (mkCashEntry (Some 2000) None))]> ∅))).

(** A heap with one expense row: the array at 0, its row at 1. *)
Definition expenseHeap : gmap loc hobj :=
  <[0%nat := HArray (mkArray [Elem (VRef 1%nat)] ∅)]>
  (<[1%nat := HObject (expense_object (mkExpenseEntry "ice" (Some 15)))]> ∅).

End JsHeap.

(** ** The cash subtotal on binary64 numbers

    [cashSubtotal] as the program computes it: the numbers are binary64
    floating-point numbers, every product and every sum is rounded to
    the nearest one. *)
Module Binary64.

Record CashEntry : Type := mkCashEntry {
  denomination : option float;
  quantity : option float
}.

(** [x ?? d] on a [number | null]. *)
Definition nullish (x : option float) (d : float) : float :=
  match x with Some v => v | None => d end.

Definition cashSubtotal (cashEntries : list CashEntry) : float :=
  reduce (fun acc entry =>
            let denomination := nullish (denomination entry) 0%float in
            let quantity := nullish (quantity entry) 0%float in
            (acc + denomination * quantity)%float)
         0%float cashEntries.

(** The contribution of one row: denomination times quantity, an absent
    field counting as 0. *)
Definition rowValue (e : CashEntry) : float :=
  match denomination e, quantity e with
  | Some d, Some q => (d * q)%float
  | Some d, None => (d * 0)%float
  | None, Some q => (0 * q)%float
  | None, None => (0 * 0)%float
  end.

(** The binary64 number of an integer, bit by bit; no step rounds when
    the integer has at most 53 significant bits. *)
Fixpoint of_pos (p : positive) : float :=
  match p with
  | xH => 1%float
  | xO q => (2 * of_pos q)%float
  | xI q => (2 * of_pos q + 1)%float
  end.

Definition of_Z (z : Z) : float :=
  match z with
  | Z0 => 0%float
  | Zpos p => of_pos p
  | Zneg p => (- of_pos p)%float
  end.

End Binary64.

(** A row of integers as a row of binary64 numbers. *)
Definition binary64_row (e : CashEntry) : Binary64.CashEntry :=
  Binary64.mkCashEntry (option_map Binary64.of_Z (denomination e))
                       (option_map Binary64.of_Z (quantity e)).

(** ** The aggregation and the batch as the specification words them *)

(** The contribution of one cash row: denomination times quantity, an
    absent field counting as 0. *)
Definition rowValue (e : CashEntry) : Z :=
  match denomination e, quantity e with
  | Some d, Some q => d * q
  | Some d, None => d * 0
  | None, Some q => 0 * q
  | None, None => 0 * 0
  end.

(** The sum over the rows. *)
Fixpoint sumOverRows (rows : list CashEntry) : Z :=
  match rows with
  | [] => 0
  | e :: rest => rowValue e + sumOverRows rest
  end.

(** The subtotal is the sum over the rows, for rows of integers: the
    statement of the specification. *)
Definition subtotal_is_exact_sum : Prop :=
  forall rows : list CashEntry,
    Binary64.cashSubtotal (map binary64_row rows)
    = Binary64.of_Z (sumOverRows rows).

(** A digital-income scalar gives one entry when it is greater than 0. *)
Definition incomeEntries (now : string) (f : FormState)
    (imputation entry : string) (x : option Z) : list LogEntry :=
  match x with
  | Some v =>
      if 0 <? v
      then [mkLogEntry now (closerName f) (shift f) imputation entry v]
      else []
  | None => []
  end.

Definition cashIncomeEntries (now : string) (f : FormState) : list LogEntry :=
  if 0 <? cashSubtotal f
  then [mkLogEntry now (closerName f) (shift f) "Ventas en Efectivo"
          "Ingreso: Efectivo" (cashSubtotal f)]
  else [].

(** An expense row qualifies when its amount is present and greater than
    0 and its detail is not empty. *)
Definition qualifies (e : ExpenseEntry) : bool :=
  match amount e with
  | Some a => (0 <? a) && negb (String.eqb (detail e) "")
  | None => false
  end.

(** The entry of a qualifying expense row. *)
Definition expenseLog (now : string) (f : FormState) (e : ExpenseEntry)
    : LogEntry :=
  mkLogEntry now (closerName f) (shift f) "Gastos Operativos"
    ("Gasto: " +:+ detail e) (- (amount e ?? 0)).

Definition summaryEntries (now : string) (f : FormState) : list LogEntry :=
  match dailySummary f with
  | Some summary =>
      [ mkLogEntry now (closerName f) (shift f) "Cierre"
          "Resumen Diario (Manual)" summary;
        mkLogEntry now (closerName f) (shift f) "Cierre"
          "Diferencia de Caja" (difference f) ]
  | None => []
  end.

(** The batch in the order of the construction algorithm. *)
Definition batchSpec (now : string) (f : FormState) : list LogEntry :=
  incomeEntries now f "Ventas con Tarjeta" "Ingreso: First Data"
    (firstDataIncome f)
  ++ incomeEntries now f "Ventas Delivery" "Ingreso: PedidosYa"
       (pedidosYaIncome f)
  ++ incomeEntries now f "Ventas Digitales" "Ingreso: Mercado Pago"
       (mercadoPagoIncome f)
  ++ cashIncomeEntries now f
  ++ map (expenseLog now f) (List.filter qualifies (expenses f))
  ++ summaryEntries now f.

Definition isExpenseLog (e : LogEntry) : bool :=
  String.eqb (accountingImputation e) "Gastos Operativos".

(** The list [l'] has the length of [l] and its rows, but for row [i]. *)
Definition only_row_changed {A : Type} (l l' : list A) (i : nat) : Prop :=
  length l' = length l /\ forall k, k <> i -> l' !! k = l !! k.

(** ** Status histories *)

Fixpoint statusWrites (t : list Action) : list Status :=
  match t with
  | [] => []
  | StatusSet s :: rest => s :: statusWrites rest
  | _ :: rest => statusWrites rest
  end.

(** The transitions of the state machine of the specification. *)
Definition spec_transition (s s' : Status) : bool :=
  match s, s' with
  | idle, sending | error, sending => true
  | sending, success | sending, error => true
  | success, idle => true
  | _, _ => false
  end.

(** Every change of status in the history [ws], starting from [s], is
    one of these transitions. *)
Fixpoint follows_spec (s : Status) (ws : list Status) : bool :=
  match ws with
  | [] => true
  | s' :: rest => spec_transition s s' && follows_spec s' rest
  end.

Definition may_submit (s : Status) : bool :=
  match s with idle | error => true | _ => false end.

(** Submit actions are issued only while the status is [idle] or
    [error]. *)
Fixpoint disciplined (es : list Event) (w : World) : bool :=
  match es with
  | [] => true
  | e :: es' =>
      match e with
      | Submit _ => may_submit (webhookStatus (app w))
      | _ => true
      end
      && match step e w with
         | Some w' => disciplined es' w'
         | None => true
         end
  end.

Definition is_submit (e : Event) : bool :=
  match e with Submit _ => true | _ => false end.

(** The validation of [submitForm] passes. *)
Definition valid (f : FormState) : bool :=
  truthy_str (closerName f) && truthy_str (shift f).

(** The events of the input handlers and of the row buttons. *)
Definition is_form_event (e : Event) : bool :=
  match e with
  | Submit _ | HttpNext _ | HttpError _ _ | TimerFires _ => false
  | _ => true
  end.

(** A timer is set with a delay of 5000 ms. *)
Definition timeout_5000 (a : Action) : Prop :=
  match a with Timeout ms => ms = 5000 | _ => True end.

(** What holds of every world reached under the discipline: the status
    signal is the last status written, the history follows the claimed
    transitions, a request is in flight exactly while the status is
    [sending], and a timer is pending exactly while it is [success]. *)
Definition Inv (w : World) : Prop :=
  webhookStatus (app w) = List.last (statusWrites (trace w)) idle
  /\ follows_spec idle (statusWrites (trace w)) = true
  /\ Forall timeout_5000 (trace w)
  /\ match webhookStatus (app w) with
     | idle | error => inflight w = [] /\ timers w = []
     | sending => (exists body, inflight w = [body]) /\ timers w = []
     | success => inflight w = [] /\ timers w = [5000]
     end.

(** ** Sums over the ledger *)

Definition sumZ (l : list Z) : Z := fold_right Z.add 0 l.

(** The amounts of the expense rows, an absent amount counting as 0. *)
Definition amounts (rows : list ExpenseEntry) : list Z :=
  map (fun e => amount e ?? 0) rows.

(** The entries of the batch that record a movement of money: all but
    the two closing entries. *)
Definition isMovement (e : LogEntry) : bool :=
  negb (String.eqb (accountingImputation e) "Cierre").

(** The six categories [submitForm] writes. *)
Definition IMPUTATIONS : list string :=
  [ "Ventas con Tarjeta"; "Ventas Delivery"; "Ventas Digitales";
    "Ventas en Efectivo"; "Gastos Operativos"; "Cierre" ].

(** An entry as [submitForm] builds them for a form that passed the
    validation. *)
Definition submitted_entry (e : LogEntry) : Prop :=
  le_closerName e <> "" /\ le_shift e <> ""
  /\ accountingImputation e ∈ IMPUTATIONS.

(** How often the status [s] was written, a request posted, a timer
    set. *)
Definition count_status (s : Status) (t : list Action) : nat :=
  length (List.filter (fun x => bool_decide (x = s)) (statusWrites t)).

Fixpoint count_timeouts (t : list Action) : nat :=
  match t with
  | [] => 0
  | Timeout _ :: rest => S (count_timeouts rest)
  | _ :: rest => count_timeouts rest
  end.

Fixpoint count_posts (t : list Action) : nat :=
  match t with
  | [] => 0
  | Post _ :: rest => S (count_posts rest)
  | _ :: rest => count_posts rest
  end.

(** Every batch posted and every history entry was built from a form
    that passed the validation, and no empty batch was posted. *)
Definition submitted_only (w : World) : Prop :=
  Forall submitted_entry (logHistory (app w))
  /\ Forall (fun body => body <> [] /\ Forall submitted_entry body)
            (inflight w).

(** Timers are set by successes only, each writes [idle] once, and no
    success is reported without a request posted for it. *)
Definition accounted (w : World) : Prop :=
  count_timeouts (trace w) = count_status success (trace w)
  /\ (count_status idle (trace w) + length (timers w))%nat
     = count_timeouts (trace w)
  /\ (length (inflight w) + count_status success (trace w)
      <= count_posts (trace w))%nat.

(** * Properties *)

(** ** Derived aggregator *)

Lemma reduce_cash_acc (rows : list CashEntry) (acc : Z) :
  reduce (fun acc entry =>
            acc + (denomination entry ?? 0) * (quantity entry ?? 0))
         acc rows
  = acc + sumOverRows rows.
Proof.
  unfold reduce. revert acc.
  induction rows as [|e rows IH]; intros acc; simpl.
  - lia.
  - rewrite IH. unfold rowValue.
    destruct (denomination e), (quantity e); simpl; lia.
Qed.

Lemma cashSubtotal_sumOverRows (f : FormState) :
  cashSubtotal f = sumOverRows (cashEntries f).
Proof.
  unfold cashSubtotal. cbv zeta. rewrite reduce_cash_acc. lia.
Qed.

(** C7, as the code has it.  For every list of cash rows
    [cashSubtotal] is the sum over the rows of denomination times
    quantity, an absent denomination or quantity counting as 0, taken
    from 0 in the order of the rows in binary64 arithmetic: each product
    and each partial sum is rounded.  The rows [{20000, 2}, {10000,
    null}] give 40000. *)
Theorem cashSubtotal_left_to_right_sum :
  Binary64.cashSubtotal [] = 0%float
  /\ (forall (rows : list Binary64.CashEntry) (e : Binary64.CashEntry),
        Binary64.cashSubtotal (rows ++ [e])
        = (Binary64.cashSubtotal rows + Binary64.rowValue e)%float)
  /\ (forall d : float,
        Binary64.rowValue (Binary64.mkCashEntry (Some d) None) = (d * 0)%float)
  /\ (forall q : float,
        Binary64.rowValue (Binary64.mkCashEntry None (Some q)) = (0 * q)%float)
  /\ Binary64.cashSubtotal
       [ Binary64.mkCashEntry (Some 20000%float) (Some 2%float);
         Binary64.mkCashEntry (Some 10000%float) None ] = 40000%float
  /\ Binary64.cashSubtotal
       (map binary64_row
          [mkCashEntry (Some 20000) (Some 2); mkCashEntry (Some 10000) None])
     = Binary64.of_Z 40000.
Proof.
  split; [reflexivity|]. split; [|split; [|split; [|split]]].
  - intros rows e. unfold Binary64.cashSubtotal, reduce.
    rewrite fold_left_app. cbn [fold_left]. cbv zeta.
    unfold Binary64.rowValue, Binary64.nullish.
    by destruct (Binary64.denomination e), (Binary64.quantity e).
  - reflexivity.
  - reflexivity.
  - vm_compute. reflexivity.
  - vm_compute. reflexivity.
Qed.

(** C7, as the specification states it, fails: with a note of value
    [2^53] and two notes of value 1 the program adds 1 to [2^53] twice
    and each sum rounds back to [2^53], while the sum of the rows is
    [2^53 + 2], itself a binary64 number. *)
Lemma cashSubtotal_exact_sum_counterexample :
  let rows := [ mkCashEntry (Some 9007199254740992) (Some 1);
                mkCashEntry (Some 1) (Some 1);
                mkCashEntry (Some 1) (Some 1) ] in
  sumOverRows rows = 9007199254740994
  /\ Binary64.of_Z (sumOverRows rows) = 9007199254740994%float
  /\ Binary64.cashSubtotal (map binary64_row rows) = 9007199254740992%float
  /\ Binary64.cashSubtotal (map binary64_row rows)
     <> Binary64.of_Z (sumOverRows rows)
  /\ ~ subtotal_is_exact_sum.
Proof.
  intros rows.
  assert (Hne : Binary64.cashSubtotal (map binary64_row rows)
                <> Binary64.of_Z (sumOverRows rows)).
  { intros H.
    assert (E : PrimFloat.eqb (Binary64.cashSubtotal (map binary64_row rows))
                  (Binary64.of_Z (sumOverRows rows)) = false)
      by (vm_compute; reflexivity).
    rewrite H in E. vm_compute in E. discriminate. }
  split; [reflexivity|]. split; [vm_compute; reflexivity|].
  split; [vm_compute; reflexivity|]. split; [exact Hne|].
  intros H. exact (Hne (H rows)).
Qed.

(** C6. [absoluteTotal] is [digitalIncomeSubtotal + cashSubtotal +
    expensesSubtotal], and [difference] is [absoluteTotal] minus
    [dailySummary], an absent [dailySummary] counting as 0, whatever the
    entered values and the signs of the expense amounts. *)
Theorem absoluteTotal_difference_relations :
  forall f : FormState,
    absoluteTotal f
    = digitalIncomeSubtotal f + cashSubtotal f + expensesSubtotal f
    /\ difference f
       = absoluteTotal f
         - match dailySummary f with Some d => d | None => 0 end
    /\ difference (set_dailySummary None f)
       = absoluteTotal (set_dailySummary None f)
    /\ absoluteTotal (set_dailySummary None f) = absoluteTotal f.
Proof.
  intros f. split; [reflexivity|]. split; [reflexivity|]. split.
  - unfold difference. simpl. lia.
  - reflexivity.
Qed.

(** ** The ledger batch *)

Lemma forEach_push {A B : Type} (c : A -> bool) (g : A -> B)
    (l : list A) (acc : list B) :
  fold_left (fun acc e => if c e then push acc (g e) else acc) l acc
  = acc ++ map g (List.filter c l).
Proof.
  revert acc. induction l as [|x l IH]; intros acc; simpl.
  - by rewrite app_nil_r.
  - rewrite IH. destruct (c x); simpl; [|done].
    unfold push. by rewrite <- app_assoc.
Qed.

Lemma truthy_str_nonempty (s : string) :
  truthy_str s = negb (String.eqb s "").
Proof. by destruct s. Qed.

Lemma condition_qualifies (e : ExpenseEntry) :
  truthy_num (amount e) && gt0 (amount e) && truthy_str (detail e)
  = qualifies e.
Proof.
  unfold qualifies, truthy_num, gt0. rewrite truthy_str_nonempty.
  destruct (amount e) as [a|]; [|done].
  destruct (Z.ltb_spec 0 a), (Z.eqb_spec a 0); simpl; try done; lia.
Qed.

Lemma filter_condition_qualifies (l : list ExpenseEntry) :
  List.filter
    (fun e => truthy_num (amount e) && gt0 (amount e) && truthy_str (detail e))
    l
  = List.filter qualifies l.
Proof.
  induction l as [|e l IH]; simpl; [done|].
  by rewrite condition_qualifies, IH.
Qed.

Lemma buildLogEntries_batchSpec (now : string) (f : FormState) :
  buildLogEntries now f = batchSpec now f.
Proof.
  unfold buildLogEntries, batchSpec. cbv zeta.
  rewrite (forEach_push
             (fun e => truthy_num (amount e) && gt0 (amount e)
                       && truthy_str (detail e))
             (fun e => mkLogEntry now (closerName f) (shift f)
                         "Gastos Operativos" ("Gasto: " +:+ detail e)
                         (- nonnull (amount e)))).
  rewrite filter_condition_qualifies.
  unfold incomeEntries, cashIncomeEntries, summaryEntries, expenseLog,
    nonnull, nullish, push.
  destruct (firstDataIncome f) as [a|]; [destruct (0 <? a)|];
  destruct (pedidosYaIncome f) as [b|]; try destruct (0 <? b);
  destruct (mercadoPagoIncome f) as [c|]; try destruct (0 <? c);
  destruct (0 <? cashSubtotal f);
  destruct (dailySummary f) as [d|];
  simpl; rewrite <- ?app_assoc; simpl; rewrite ?app_nil_r; reflexivity.
Qed.

(** C1. The batch built by [submitForm] is, in this order: one entry for
    each of First Data, PedidosYa and Mercado Pago whose value is greater
    than 0, with its category, its label and the value as amount; one
    cash entry when [cashSubtotal] is greater than 0; one entry for each
    qualifying expense row; and, when [dailySummary] is present (0
    included), the manual-summary entry followed by the difference entry.
    With First Data 100, cash subtotal 40000, the expense
    [{detail: "ice", amount: 15}] and a daily summary of 40085 the amounts
    are 100, 40000, -15, 40085, 30. *)
Theorem submitForm_batch_order :
  (forall (now : string) (f : FormState),
      buildLogEntries now f
      = incomeEntries now f "Ventas con Tarjeta" "Ingreso: First Data"
          (firstDataIncome f)
        ++ incomeEntries now f "Ventas Delivery" "Ingreso: PedidosYa"
             (pedidosYaIncome f)
        ++ incomeEntries now f "Ventas Digitales" "Ingreso: Mercado Pago"
             (mercadoPagoIncome f)
        ++ cashIncomeEntries now f
        ++ map (expenseLog now f) (List.filter qualifies (expenses f))
        ++ summaryEntries now f)
  /\ (forall (now : string) (f : FormState),
        summaryEntries now (set_dailySummary (Some 0) f)
        = [ mkLogEntry now (closerName f) (shift f) "Cierre"
              "Resumen Diario (Manual)" 0;
            mkLogEntry now (closerName f) (shift f) "Cierre"
              "Diferencia de Caja" (absoluteTotal f) ])
  /\ (forall (now name turno : string) (rows : list CashEntry),
        cashSubtotal
          (mkFormState name turno (Some 100) None None (Some 40085)
             rows [mkExpenseEntry "ice" (Some 15)]) = 40000 ->
        buildLogEntries now
          (mkFormState name turno (Some 100) None None (Some 40085)
             rows [mkExpenseEntry "ice" (Some 15)])
        = [ mkLogEntry now name turno "Ventas con Tarjeta"
              "Ingreso: First Data" 100;
            mkLogEntry now name turno "Ventas en Efectivo"
              "Ingreso: Efectivo" 40000;
            mkLogEntry now name turno "Gastos Operativos" "Gasto: ice" (-15);
            mkLogEntry now name turno "Cierre" "Resumen Diario (Manual)" 40085;
            mkLogEntry now name turno "Cierre" "Diferencia de Caja" 30 ]).
Proof.
  split; [exact buildLogEntries_batchSpec|]. split.
  - intros now f. unfold summaryEntries, difference. simpl.
    do 2 f_equal. f_equal. unfold absoluteTotal, totalIncome. simpl.
    change (cashSubtotal (set_dailySummary (Some 0) f)) with (cashSubtotal f).
    change (expensesSubtotal (set_dailySummary (Some 0) f))
      with (expensesSubtotal f).
    change (digitalIncomeSubtotal (set_dailySummary (Some 0) f))
      with (digitalIncomeSubtotal f).
    lia.
  - intros now name turno rows Hrows.
    rewrite buildLogEntries_batchSpec.
    unfold batchSpec, incomeEntries, cashIncomeEntries, summaryEntries,
      expenseLog, difference, absoluteTotal, totalIncome.
    rewrite Hrows. reflexivity.
Qed.

(** The cash rows of the example: two notes of 20000, no note of 10000. *)
Lemma submitForm_batch_order_witness :
  cashSubtotal
    (mkFormState "Ana" "tarde" (Some 100) None None (Some 40085)
       [mkCashEntry (Some 20000) (Some 2); mkCashEntry (Some 10000) None]
       [mkExpenseEntry "ice" (Some 15)]) = 40000
  /\ map le_amount
       (buildLogEntries "2024-05-01T22:00:00.000Z"
          (mkFormState "Ana" "tarde" (Some 100) None None (Some 40085)
             [mkCashEntry (Some 20000) (Some 2); mkCashEntry (Some 10000) None]
             [mkExpenseEntry "ice" (Some 15)]))
     = [100; 40000; -15; 40085; 30].
Proof.
  split; [reflexivity|].
  rewrite (proj2 (proj2 submitForm_batch_order)
             "2024-05-01T22:00:00.000Z" "Ana" "tarde"
             [mkCashEntry (Some 20000) (Some 2); mkCashEntry (Some 10000) None]
             eq_refl).
  reflexivity.
Defined.

(** ** The three outcomes of [submitForm] *)

Lemma submitForm_invalid (now : string) (w : World) :
  valid (form (app w)) = false ->
  submitForm now w
  = mkWorld (mkApp (form (app w)) error (Some MSG_VALIDATION)
               (logHistory (app w)))
      (inflight w) (timers w)
      (trace w ++ [StatusSet sending; ErrorSet None; StatusSet error;
                   ErrorSet (Some MSG_VALIDATION)]).
Proof.
  unfold valid. intros Hv.
  unfold submitForm, seq, webhookStatus_set, webhookError_set. simpl.
  rewrite <- negb_andb, Hv. simpl. by rewrite <- !app_assoc.
Qed.

Lemma submitForm_empty (now : string) (w : World) :
  valid (form (app w)) = true ->
  buildLogEntries now (form (app w)) = [] ->
  submitForm now w
  = mkWorld (mkApp (form (app w)) error (Some MSG_EMPTY) (logHistory (app w)))
      (inflight w) (timers w)
      (trace w ++ [StatusSet sending; ErrorSet None; StatusSet error;
                   ErrorSet (Some MSG_EMPTY)]).
Proof.
  unfold valid. intros Hv Hb.
  unfold submitForm, seq, webhookStatus_set, webhookError_set. simpl.
  rewrite <- negb_andb, Hv, Hb. simpl. by rewrite <- !app_assoc.
Qed.

Lemma submitForm_posts (now : string) (w : World) :
  valid (form (app w)) = true ->
  buildLogEntries now (form (app w)) <> [] ->
  submitForm now w
  = mkWorld (mkApp (form (app w)) sending None (logHistory (app w)))
      (inflight w ++ [buildLogEntries now (form (app w))]) (timers w)
      (trace w ++ [StatusSet sending; ErrorSet None;
                   Post (buildLogEntries now (form (app w)))]).
Proof.
  unfold valid. intros Hv Hb.
  unfold submitForm, seq, webhookStatus_set, webhookError_set, http_post.
  simpl. rewrite <- negb_andb, Hv. simpl.
  destruct (buildLogEntries now (form (app w))) as [|e l] eqn:E; [done|].
  simpl. by rewrite <- !app_assoc.
Qed.

Lemma valid_true (f : FormState) :
  valid f = true <-> closerName f <> "" /\ shift f <> "".
Proof.
  unfold valid. destruct (closerName f), (shift f); simpl;
    intuition congruence.
Qed.


(** ** Expense rows in the batch *)

Lemma filter_isExpenseLog_income now f imputation entry x :
  imputation <> "Gastos Operativos" ->
  List.filter isExpenseLog (incomeEntries now f imputation entry x) = [].
Proof.
  intros Hne. unfold incomeEntries.
  destruct x as [v|]; [|done]. destruct (0 <? v); [|done].
  simpl. unfold isExpenseLog. simpl.
  destruct (String.eqb_spec imputation "Gastos Operativos"); done.
Qed.

Lemma filter_isExpenseLog_expenses now f (l : list ExpenseEntry) :
  List.filter isExpenseLog (map (expenseLog now f) l)
  = map (expenseLog now f) l.
Proof.
  induction l as [|e l IH]; simpl; [done|]. by rewrite IH.
Qed.

Lemma qualifies_iff (e : ExpenseEntry) :
  qualifies e = true
  <-> exists a, amount e = Some a /\ 0 < a /\ detail e <> "".
Proof.
  unfold qualifies. destruct (amount e) as [a|].
  - rewrite andb_true_iff, negb_true_iff, Z.ltb_lt.
    destruct (String.eqb_spec (detail e) ""); split.
    + intros [_ ?]. done.
    + intros (a' & _ & _ & ?). done.
    + intros [? _]. eauto.
    + intros (a' & [= <-] & ? & _). done.
  - split; [done|]. by intros (a' & ? & _).
Qed.

(** C8. The entries of the batch that stand for expense rows are, in
    order, one for each row whose amount is present and greater than 0
    and whose detail is not empty, and none for any other row, whatever
    its other field; an emitted entry has the negated amount and a label
    that embeds the detail; a skipped row raises no error: the batch is
    posted all the same. *)
Theorem expense_rows_in_batch :
  (forall (now : string) (f : FormState),
      List.filter isExpenseLog (buildLogEntries now f)
      = map (expenseLog now f) (List.filter qualifies (expenses f)))
  /\ (forall e : ExpenseEntry,
        qualifies e = true
        <-> exists a, amount e = Some a /\ 0 < a /\ detail e <> "")
  /\ (forall e : ExpenseEntry,
        truthy_num (amount e) && gt0 (amount e) && truthy_str (detail e)
        = qualifies e)
  /\ (forall (now : string) (f : FormState) (d : string) (a : Z),
        expenseLog now f (mkExpenseEntry d (Some a))
        = mkLogEntry now (closerName f) (shift f) "Gastos Operativos"
            ("Gasto: " +:+ d) (- a))
  /\ (forall (d : string) (a : Z),
        qualifies (mkExpenseEntry d None) = false
        /\ qualifies (mkExpenseEntry "" (Some a)) = false
        /\ (a <= 0 -> qualifies (mkExpenseEntry d (Some a)) = false))
  /\ (forall (now : string) (w : World),
        valid (form (app w)) = true ->
        buildLogEntries now (form (app w)) <> [] ->
        webhookStatus (app (submitForm now w)) = sending
        /\ webhookError (app (submitForm now w)) = None
        /\ inflight (submitForm now w)
           = inflight w ++ [buildLogEntries now (form (app w))]).
Proof.
  split; [|split; [|split; [|split; [|split]]]].
  - intros now f. rewrite buildLogEntries_batchSpec. unfold batchSpec.
    rewrite !List.filter_app.
    rewrite !filter_isExpenseLog_income by done.
    rewrite filter_isExpenseLog_expenses.
    unfold cashIncomeEntries, summaryEntries.
    destruct (0 <? cashSubtotal f), (dailySummary f); simpl;
      by rewrite ?app_nil_r.
  - exact qualifies_iff.
  - exact condition_qualifies.
  - reflexivity.
  - intros d a. split; [done|]. split.
    + unfold qualifies. simpl. by rewrite andb_false_r.
    + intros Ha. unfold qualifies. simpl.
      destruct (Z.ltb_spec 0 a); [lia|done].
  - intros now w Hv Hb. by rewrite (submitForm_posts now w Hv Hb).
Qed.

(** A form with one skipped and one emitted expense row. *)
Lemma expense_rows_in_batch_witness :
  let w := mkWorld
             (mkApp (mkFormState "Ana" "tarde" None None None None []
                       [mkExpenseEntry "" (Some 7); mkExpenseEntry "ice" (Some 15)])
                    idle None [])
             [] [] [] in
  (-3 <= 0 /\ qualifies (mkExpenseEntry "pan" (Some (-3))) = false)
  /\ map le_amount (List.filter isExpenseLog
                      (buildLogEntries "t" (form (app w)))) = [-15]
  /\ webhookStatus (app (submitForm "t" w)) = sending.
Proof.
  intros w.
  destruct expense_rows_in_batch as (Hrows & _ & _ & _ & Hskip & Hpost).
  split; [|split].
  - split; [lia|]. apply (Hskip "pan" (-3)). lia.
  - rewrite Hrows. reflexivity.
  - apply (Hpost "t" w).
    + reflexivity.
    + discriminate.
Defined.

(** ** Submission: local errors, success, failure *)

Lemma answer_last (w : World) (body : list LogEntry) :
  answer (length (inflight w))
    (mkWorld (app w) (inflight w ++ [body]) (timers w) (trace w))
  = Some (body, mkWorld (app w) (inflight w) (timers w) (trace w)).
Proof.
  unfold answer. simpl.
  rewrite list_lookup_middle by done.
  rewrite delete_middle. by rewrite app_nil_r.
Qed.




Lemma resetForm_eq (w : World) :
  resetForm w
  = mkWorld (mkApp defaultForm (webhookStatus (app w)) (webhookError (app w))
               (logHistory (app w)))
      (inflight w) (timers w) (trace w).
Proof. reflexivity. Qed.

Lemma onNext_eq (newLogEntries : list LogEntry) (w : World) :
  onNext newLogEntries w
  = mkWorld (mkApp defaultForm success (webhookError (app w))
               (newLogEntries ++ logHistory (app w)))
      (inflight w) (timers w ++ [5000])
      (trace w ++ [StatusSet success; Timeout 5000]).
Proof.
  unfold onNext, seq, webhookStatus_set, logHistory_update, setTimeout.
  rewrite resetForm_eq. simpl. by rewrite <- app_assoc.
Qed.

Lemma onError_eq (err_status : Z) (w : World) :
  onError err_status w
  = mkWorld (mkApp (form (app w)) error (Some (errorMessage err_status))
               (logHistory (app w)))
      (inflight w) (timers w)
      (trace w ++ [StatusSet error;
                   ErrorSet (Some (errorMessage err_status))]).
Proof.
  unfold onError, seq, webhookStatus_set, webhookError_set. simpl.
  by rewrite <- app_assoc.
Qed.

(** C2. When the request of a submission succeeds, every form field is
    back at its default (empty closer name, shift ['mañana'], the three
    incomes and the daily summary absent, the cash rows 20000, 10000 and
    2000 with absent quantities, one blank expense row), the batch that
    was posted stands in front of the history in its own order, and
    [resetForm] changes neither the history nor the status. *)
Theorem successful_submission_resets_form :
  (forall (now : string) (w : World),
      valid (form (app w)) = true ->
      buildLogEntries now (form (app w)) <> [] ->
      exists w1 w2,
        step (Submit now) w = Some w1
        /\ step (HttpNext (length (inflight w))) w1 = Some w2
        /\ form (app w2)
           = mkFormState "" "mañana" None None None None
               [ mkCashEntry (Some 20000) None; mkCashEntry (Some 10000) None;
                 mkCashEntry (Some 2000) None ]
               [ mkExpenseEntry "" None ]
        /\ logHistory (app w2)
           = buildLogEntries now (form (app w)) ++ logHistory (app w)
        /\ webhookStatus (app w2) = success)
  /\ (forall (k : nat) (w w2 : World),
        step (HttpNext k) w = Some w2 ->
        exists newLogEntries,
          inflight w !! k = Some newLogEntries
          /\ form (app w2) = defaultForm
          /\ logHistory (app w2) = newLogEntries ++ logHistory (app w)
          /\ webhookStatus (app w2) = success)
  /\ (forall w : World,
        logHistory (app (resetForm w)) = logHistory (app w)
        /\ webhookStatus (app (resetForm w)) = webhookStatus (app w)
        /\ webhookError (app (resetForm w)) = webhookError (app w)
        /\ form (app (resetForm w)) = defaultForm).
Proof.
  split; [|split].
  - intros now w Hv Hb. eexists _, _. split; [reflexivity|].
    rewrite (submitForm_posts now w Hv Hb). split.
    + simpl. unfold answer. simpl.
      rewrite list_lookup_middle by done. rewrite delete_middle.
      reflexivity.
    + rewrite onNext_eq. simpl. done.
  - intros k w w2. simpl. unfold answer.
    destruct (inflight w !! k) as [body|] eqn:E; [|done].
    intros [= <-]. exists body. rewrite onNext_eq. simpl. done.
  - intros w. by rewrite resetForm_eq.
Qed.

Lemma successful_submission_resets_form_witness :
  let w := mkWorld
             (mkApp (mkFormState "Ana" "tarde" (Some 100) None None None
                       DEFAULT_CASH_ENTRIES [mkExpenseEntry "" None])
                    idle None []) [] [] [] in
  exists w1 w2,
    step (Submit "t") w = Some w1
    /\ step (HttpNext 0) w1 = Some w2
    /\ form (app w2) = defaultForm
    /\ map le_amount (logHistory (app w2)) = [100]
    /\ webhookStatus (app w2) = success.
Proof.
  intros w.
  destruct (proj1 successful_submission_resets_form "t" w)
    as (w1 & w2 & H1 & H2 & H3 & H4 & H5).
  - reflexivity.
  - discriminate.
  - exists w1, w2. split; [exact H1|]. split; [exact H2|].
    split; [exact H3|]. split; [|exact H5].
    rewrite H4. reflexivity.
Defined.

Lemma errorMessage_server (err_status : Z) :
  err_status <> 0 ->
  errorMessage err_status = "Error del servidor: " +:+ pretty err_status +:+ ".".
Proof.
  intros Hne. unfold errorMessage.
  destruct (Z.eqb_spec err_status 0); done.
Qed.

Lemma server_message_not_network (code : string) :
  "Error del servidor: " +:+ code +:+ "." <> MSG_NETWORK.
Proof. unfold MSG_NETWORK. simpl. discriminate. Qed.

(** C3. When the request of a submission fails, the status becomes
    [error]; the message is the network message when [err.status] is 0
    and otherwise a different message that embeds the status code; and
    every form field and the history are what they were before the
    submit action. *)
Theorem failed_submission_keeps_form :
  (forall (now : string) (err_status : Z) (w : World),
      valid (form (app w)) = true ->
      buildLogEntries now (form (app w)) <> [] ->
      exists w1 w2,
        step (Submit now) w = Some w1
        /\ step (HttpError (length (inflight w)) err_status) w1 = Some w2
        /\ webhookStatus (app w2) = error
        /\ webhookError (app w2) = Some (errorMessage err_status)
        /\ form (app w2) = form (app w)
        /\ logHistory (app w2) = logHistory (app w))
  /\ (forall (k : nat) (err_status : Z) (w w2 : World),
        step (HttpError k err_status) w = Some w2 ->
        webhookStatus (app w2) = error
        /\ webhookError (app w2) = Some (errorMessage err_status)
        /\ form (app w2) = form (app w)
        /\ logHistory (app w2) = logHistory (app w))
  /\ errorMessage 0 = MSG_NETWORK
  /\ (forall err_status : Z,
        err_status <> 0 ->
        errorMessage err_status
        = "Error del servidor: " +:+ pretty err_status +:+ "."
        /\ errorMessage err_status <> errorMessage 0)
  /\ errorMessage 500 = "Error del servidor: 500.".
Proof.
  split; [|split; [|split; [|split]]].
  - intros now err_status w Hv Hb. eexists _, _. split; [reflexivity|].
    rewrite (submitForm_posts now w Hv Hb). split.
    + simpl. unfold answer. simpl.
      rewrite list_lookup_middle by done. rewrite delete_middle.
      reflexivity.
    + rewrite onError_eq. simpl. done.
  - intros k err_status w w2. simpl. unfold answer.
    destruct (inflight w !! k) as [body|] eqn:E; [|done].
    intros [= <-]. rewrite onError_eq. simpl. done.
  - reflexivity.
  - intros err_status Hne. rewrite (errorMessage_server _ Hne).
    split; [done|]. apply server_message_not_network.
  - reflexivity.
Qed.

Lemma failed_submission_keeps_form_witness :
  let f := mkFormState "Ana" "tarde" (Some 100) None None None
             DEFAULT_CASH_ENTRIES [mkExpenseEntry "" None] in
  let w := mkWorld (mkApp f idle None []) [] [] [] in
  (exists w1 w2,
     step (Submit "t") w = Some w1
     /\ step (HttpError 0 503) w1 = Some w2
     /\ webhookStatus (app w2) = error
     /\ webhookError (app w2) = Some "Error del servidor: 503."
     /\ form (app w2) = f
     /\ logHistory (app w2) = [])
  /\ errorMessage 404 <> errorMessage 0.
Proof.
  intros f w.
  destruct failed_submission_keeps_form as (Hrun & _ & _ & Hmsg & _).
  split.
  - destruct (Hrun "t" 503 w) as (w1 & w2 & H1 & H2 & H3 & H4 & H5 & H6).
    + reflexivity.
    + discriminate.
    + exists w1, w2. repeat (split; [assumption|]). assumption.
  - apply (Hmsg 404). lia.
Defined.

(** ** The status machine *)

(** Input handlers and row buttons touch the form only. *)
Lemma step_form_event (e : Event) (w w' : World) :
  is_form_event e = true ->
  step e w = Some w' ->
  webhookStatus (app w') = webhookStatus (app w)
  /\ webhookError (app w') = webhookError (app w)
  /\ logHistory (app w') = logHistory (app w)
  /\ inflight w' = inflight w
  /\ timers w' = timers w
  /\ trace w' = trace w.
Proof.
  destruct e; simpl; try discriminate; intros _;
    repeat match goal with
           | |- context [match ?x with Some _ => _ | None => _ end] =>
               destruct x; [|discriminate]
           end;
    intros [= <-]; done.
Qed.

Lemma statusWrites_app (t t' : list Action) :
  statusWrites (t ++ t') = statusWrites t ++ statusWrites t'.
Proof.
  induction t as [|a t IH]; simpl; [done|].
  destruct a; simpl; by rewrite ?IH.
Qed.

Lemma last_cons_default {A : Type} (l : list A) (x a b : A) :
  List.last (x :: l) a = List.last (x :: l) b.
Proof.
  revert x. induction l as [|y l IH]; intros x; [done|].
  change (List.last (y :: l) a = List.last (y :: l) b). apply IH.
Qed.

Lemma last_cons {A : Type} (l : list A) (x d : A) :
  List.last (x :: l) d = List.last l x.
Proof.
  destruct l as [|y l]; [done|].
  change (List.last (y :: l) d = List.last (y :: l) x).
  apply last_cons_default.
Qed.

Lemma follows_spec_app (s : Status) (l l' : list Status) :
  follows_spec s (l ++ l')
  = follows_spec s l && follows_spec (List.last l s) l'.
Proof.
  revert s. induction l as [|x l IH]; intros s; [done|].
  change ((x :: l) ++ l') with (x :: (l ++ l')).
  cbn [follows_spec]. by rewrite IH, andb_assoc, last_cons.
Qed.

Lemma last_snoc {A : Type} (l : list A) (x d : A) : List.last (l ++ [x]) d = x.
Proof. apply List.last_last. Qed.

Lemma Inv_initial : Inv initialWorld.
Proof. unfold Inv. simpl. done. Qed.

Lemma Inv_extend (w w' : World) (ws : list Status) :
  Inv w ->
  statusWrites (trace w') = statusWrites (trace w) ++ ws ->
  follows_spec (webhookStatus (app w)) ws = true ->
  webhookStatus (app w') = List.last ws (webhookStatus (app w)) ->
  Forall timeout_5000 (trace w') ->
  match webhookStatus (app w') with
  | idle | error => inflight w' = [] /\ timers w' = []
  | sending => (exists body, inflight w' = [body]) /\ timers w' = []
  | success => inflight w' = [] /\ timers w' = [5000]
  end ->
  Inv w'.
Proof.
  intros (Hlast & Hfc & _ & _) Hws Hstep Hst Ht Hshape.
  unfold Inv. rewrite Hws, follows_spec_app, Hfc, <- Hlast, Hstep.
  repeat split; try done.
  rewrite Hst, Hlast. clear.
  generalize (statusWrites (trace w)). intros l.
  destruct ws as [|x ws]; [by rewrite app_nil_r|].
  revert x. induction ws as [|y ws IH] using rev_ind; intros x.
  - by rewrite last_snoc.
  - rewrite app_comm_cons, app_assoc, !last_snoc. done.
Qed.

Lemma onTimeout_eq (w : World) :
  onTimeout w
  = mkWorld (mkApp (form (app w)) idle (webhookError (app w))
               (logHistory (app w)))
      (inflight w) (timers w) (trace w ++ [StatusSet idle]).
Proof. reflexivity. Qed.

(** A step described by the equation [E] appends the statuses [ws]: the
    side conditions of [Inv_extend] that follow from [E] alone are
    closed, the claimed transitions and the shape of the new world are
    left. *)
Ltac extend_with w ws E :=
  apply (Inv_extend w _ ws);
  [ assumption
  | rewrite E; simpl; rewrite statusWrites_app; reflexivity
  |
  | rewrite E; reflexivity
  | rewrite E; simpl; apply Forall_app; split;
    [assumption | repeat constructor]
  | rewrite E; simpl ].

Lemma answer_Some (k : nat) (w w1 : World) (body : list LogEntry) :
  answer k w = Some (body, w1) ->
  inflight w !! k = Some body
  /\ w1 = mkWorld (app w) (delete k (inflight w)) (timers w) (trace w).
Proof.
  unfold answer. destruct (inflight w !! k); [|done]. by intros [= <- <-].
Qed.

Lemma Inv_answer (k : nat) (w w1 : World) (body : list LogEntry) :
  Inv w ->
  answer k w = Some (body, w1) ->
  webhookStatus (app w) = sending
  /\ w1 = mkWorld (app w) [] [] (trace w).
Proof.
  intros (_ & _ & _ & Hshape) Ha.
  apply answer_Some in Ha as [Ek ->].
  destruct (webhookStatus (app w));
    try (destruct Hshape as [Hi _]; rewrite Hi in Ek; done).
  destruct Hshape as [[b Hi] Htm]. rewrite Hi in Ek. rewrite Hi, Htm.
  destruct k; simpl in Ek; done.
Qed.

Lemma Inv_fire (k : nat) (w w1 : World) :
  Inv w ->
  fire k w = Some w1 ->
  webhookStatus (app w) = success
  /\ w1 = mkWorld (app w) [] [] (trace w).
Proof.
  intros (_ & _ & _ & Hshape). unfold fire.
  destruct (timers w !! k) as [ms|] eqn:Ek; [|done]. intros [= <-].
  destruct (webhookStatus (app w));
    destruct Hshape as [Hi Htm]; rewrite Htm in Ek; try done.
  rewrite Hi, Htm. destruct k; simpl in Ek; done.
Qed.

Lemma Inv_step (e : Event) (w w' : World) :
  Inv w ->
  (is_submit e = true -> may_submit (webhookStatus (app w)) = true) ->
  step e w = Some w' ->
  Inv w'.
Proof.
  intros HI Hd Hs.
  destruct (is_form_event e) eqn:Ef.
  { destruct (step_form_event e w w' Ef Hs) as (H1 & _ & _ & H2 & H3 & H4).
    destruct HI as (Ha & Hb & Hc & Hshape).
    unfold Inv. rewrite H1, H2, H3, H4. done. }
  destruct e; try discriminate; cbn [step] in Hs.
  - (* Submit *)
    injection Hs as <-. specialize (Hd eq_refl).
    assert (Hin : inflight w = [] /\ timers w = []).
    { destruct HI as (_ & _ & _ & Hshape).
      destruct (webhookStatus (app w)); done. }
    destruct Hin as [Hin Htm].
    pose proof HI as (_ & _ & Ht & _).
    destruct (valid (form (app w))) eqn:Hv.
    + destruct (buildLogEntries now (form (app w))) as [|x l] eqn:Hb.
      * extend_with w [sending; error] (submitForm_empty now w Hv Hb).
        -- simpl. by destruct (webhookStatus (app w)).
        -- done.
      * assert (Hne : buildLogEntries now (form (app w)) <> [])
          by by rewrite Hb.
        extend_with w [sending] (submitForm_posts now w Hv Hne).
        -- simpl. by destruct (webhookStatus (app w)).
        -- rewrite Hin. eauto.
    + extend_with w [sending; error] (submitForm_invalid now w Hv).
      * simpl. by destruct (webhookStatus (app w)).
      * done.
  - (* HttpNext *)
    destruct (answer k w) as [[newLogEntries w1]|] eqn:Ea; [|done].
    injection Hs as <-.
    destruct (Inv_answer k w w1 newLogEntries HI Ea) as [Hst ->].
    pose proof HI as (_ & _ & Ht & _).
    extend_with w [success]
      (onNext_eq newLogEntries (mkWorld (app w) [] [] (trace w))).
    + simpl. by rewrite Hst.
    + done.
  - (* HttpError *)
    destruct (answer k w) as [[newLogEntries w1]|] eqn:Ea; [|done].
    injection Hs as <-.
    destruct (Inv_answer k w w1 newLogEntries HI Ea) as [Hst ->].
    pose proof HI as (_ & _ & Ht & _).
    extend_with w [error]
      (onError_eq err_status (mkWorld (app w) [] [] (trace w))).
    + simpl. by rewrite Hst.
    + done.
  - (* TimerFires *)
    destruct (fire k w) as [w1|] eqn:Ea; [|done].
    injection Hs as <-.
    destruct (Inv_fire k w w1 HI Ea) as [Hst ->].
    pose proof HI as (_ & _ & Ht & _).
    extend_with w [idle] (onTimeout_eq (mkWorld (app w) [] [] (trace w))).
    + simpl. by rewrite Hst.
    + done.
Qed.

Lemma Inv_run (es : list Event) (w w' : World) :
  Inv w -> disciplined es w = true -> run es w = Some w' -> Inv w'.
Proof.
  revert w. induction es as [|e es IH]; intros w HI Hd Hr; simpl in *.
  - by injection Hr as <-.
  - apply andb_true_iff in Hd as [Hd1 Hd2].
    destruct (step e w) as [w1|] eqn:Es; [|done].
    apply (IH w1); try done.
    apply (Inv_step e w w1); try done.
    intros Hsub. by destruct e.
Qed.

Lemma error_persists (e : Event) (w w' : World) :
  Inv w ->
  webhookStatus (app w) = error ->
  is_submit e = false ->
  step e w = Some w' ->
  webhookStatus (app w') = error.
Proof.
  intros HI Herr Hns Hs.
  destruct (is_form_event e) eqn:Ef.
  { destruct (step_form_event e w w' Ef Hs) as (H1 & _). by rewrite H1. }
  destruct e; try discriminate; cbn [step] in Hs.
  - destruct (answer k w) as [[b w1]|] eqn:Ea; [|done].
    destruct (Inv_answer k w w1 b HI Ea) as [Hst _]. congruence.
  - destruct (answer k w) as [[b w1]|] eqn:Ea; [|done].
    destruct (Inv_answer k w w1 b HI Ea) as [Hst _]. congruence.
  - destruct (fire k w) as [w1|] eqn:Ea; [|done].
    destruct (Inv_fire k w w1 HI Ea) as [Hst _]. congruence.
Qed.

(** C5, as the code has it.  In every execution from the initial state
    in which submit actions are issued only while the status is [idle]
    or [error], the status changes only from [idle] or [error] to
    [sending], from [sending] to [success] or [error], and from
    [success] to [idle]; every timer is set with a delay of 5000 ms;
    while the status is [success] a timer is pending whose firing, with
    no user action, makes it [idle]; and from [error] no event other
    than a submit action changes the status. *)
Theorem status_machine_under_discipline :
  forall (es : list Event) (w : World),
    run es initialWorld = Some w ->
    disciplined es initialWorld = true ->
    follows_spec idle (statusWrites (trace w)) = true
    /\ (forall ms : Z, In (Timeout ms) (trace w) -> ms = 5000)
    /\ (webhookStatus (app w) = success ->
        timers w = [5000]
        /\ exists w', step (TimerFires 0) w = Some w'
                      /\ webhookStatus (app w') = idle)
    /\ (webhookStatus (app w) = error ->
        forall (e : Event) (w' : World),
          is_submit e = false -> step e w = Some w' ->
          webhookStatus (app w') = error).
Proof.
  intros es w Hr Hd.
  assert (HI : Inv w) by exact (Inv_run es _ _ Inv_initial Hd Hr).
  pose proof HI as (Hlast & Hfc & Ht & Hshape).
  split; [exact Hfc|]. split; [|split].
  - intros ms Hin. rewrite Forall_forall in Ht.
    apply (Ht (Timeout ms)). by apply list_elem_of_In.
  - intros Hs. rewrite Hs in Hshape. destruct Hshape as [Hi Htm].
    split; [exact Htm|]. eexists. split.
    + cbn [step]. unfold fire. rewrite Htm. simpl. reflexivity.
    + reflexivity.
  - intros Herr e w' Hns Hs. by apply (error_persists e w w').
Qed.

(** A submission that succeeds, the timer, and a second submission. *)
Lemma status_machine_under_discipline_witness :
  let es := [ NameKeyup "Ana"; FirstDataKeyup (Some 100); Submit "t1";
              HttpNext 0; TimerFires 0; Submit "t2" ] in
  exists w,
    run es initialWorld = Some w
    /\ disciplined es initialWorld = true
    /\ statusWrites (trace w) = [sending; success; idle; sending; error]
    /\ follows_spec idle (statusWrites (trace w)) = true.
Proof.
  intros es.
  pose (w := default initialWorld (run es initialWorld)).
  assert (Hr : run es initialWorld = Some w) by (vm_compute; reflexivity).
  assert (Hd : disciplined es initialWorld = true)
    by (vm_compute; reflexivity).
  exists w. split; [exact Hr|]. split; [exact Hd|].
  split; [vm_compute; reflexivity|].
  exact (proj1 (status_machine_under_discipline es w Hr Hd)).
Defined.

(** C5, as the specification states it, fails.  After a successful
    submission the form is reset, and a second submit action within the
    five seconds moves the status from [success] to [sending] and, the
    closer name being empty again, to [error]; the timer of the first
    submission then moves it from [error] to [idle]. *)
Lemma status_machine_counterexample :
  let es := [ NameKeyup "Ana"; FirstDataKeyup (Some 100); Submit "t1";
              HttpNext 0; Submit "t2" ] in
  (exists w_err w_idle,
     run es initialWorld = Some w_err
     /\ webhookStatus (app w_err) = error
     /\ is_submit (TimerFires 0) = false
     /\ step (TimerFires 0) w_err = Some w_idle
     /\ webhookStatus (app w_idle) = idle
     /\ statusWrites (trace w_idle) = [sending; success; sending; error; idle]
     /\ follows_spec idle (statusWrites (trace w_idle)) = false)
  /\ ~ (forall (es' : list Event) (w : World),
          run es' initialWorld = Some w ->
          follows_spec idle (statusWrites (trace w)) = true).
Proof.
  intros es.
  pose (w_err := default initialWorld (run es initialWorld)).
  pose (w_idle := default initialWorld (step (TimerFires 0) w_err)).
  assert (Hr : run es initialWorld = Some w_err) by (vm_compute; reflexivity).
  assert (Hs : step (TimerFires 0) w_err = Some w_idle)
    by (vm_compute; reflexivity).
  assert (Hf : follows_spec idle (statusWrites (trace w_idle)) = false)
    by (vm_compute; reflexivity).
  split.
  - exists w_err, w_idle. split; [exact Hr|].
    split; [vm_compute; reflexivity|]. split; [reflexivity|].
    split; [exact Hs|]. split; [vm_compute; reflexivity|].
    split; [vm_compute; reflexivity|exact Hf].
  - intros H.
    assert (Hr' : run (es ++ [TimerFires 0]) initialWorld = Some w_idle)
      by (vm_compute; reflexivity).
    specialize (H _ _ Hr'). rewrite Hf in H. discriminate.
Qed.

(** ** The per-row handlers on the heap *)

Section UpdateRow.

Variable h : gmap JsHeap.loc JsHeap.hobj.
Variable arr : JsHeap.jsarray.

Let a' : JsHeap.loc := JsHeap.newArrayRef h.
Let r : JsHeap.loc := JsHeap.newRowRef h arr.

Lemma newArrayRef_fresh : h !! a' = None.
Proof.
  apply not_elem_of_dom. unfold a', JsHeap.newArrayRef. apply is_fresh.
Qed.

Lemma newRowRef_fresh : h !! r = None /\ r <> a'.
Proof.
  pose proof (is_fresh
    (dom (<[a' := JsHeap.HArray (JsHeap.spread_array arr)]> h))) as Hf.
  change (r ∉ dom (<[a' := JsHeap.HArray (JsHeap.spread_array arr)]> h))
    in Hf.
  rewrite dom_insert in Hf. split.
  - apply not_elem_of_dom. set_solver.
  - set_solver.
Qed.

Lemma spread_object_alloc (o : JsHeap.jsarray) (v : JsHeap.jsval) :
  JsHeap.spread_object (<[a' := JsHeap.HArray o]> h) v
  = JsHeap.spread_object h v.
Proof.
  destruct v as [| | | |l]; try done. simpl.
  destruct (decide (a' = l)) as [<-|Hne].
  - by rewrite lookup_insert_eq, newArrayRef_fresh.
  - by rewrite lookup_insert_ne.
Qed.

(** What [update_row] returns when the object spread is defined. *)
Lemma update_row_eq (index : Z) (field : string) (value : JsHeap.jsval)
    (entries : JsHeap.loc) (props : gmap string JsHeap.jsval) :
  h !! entries = Some (JsHeap.HArray arr) ->
  JsHeap.spread_object h
    (JsHeap.array_get (JsHeap.spread_array arr) index) = Some props ->
  JsHeap.update_row index field value entries h
  = Some (a',
          <[a' :=
              JsHeap.HArray
                (JsHeap.array_set index (JsHeap.VRef r)
                   (JsHeap.spread_array arr))]>
            (<[r := JsHeap.HObject (<[field := value]> props)]> h)).
Proof.
  intros Hentries Hp. unfold JsHeap.update_row. rewrite Hentries.
  unfold JsHeap.alloc. change (fresh (dom h)) with a'. cbv zeta.
  rewrite spread_object_alloc, Hp.
  change (fresh (dom (<[a' := JsHeap.HArray (JsHeap.spread_array arr)]> h)))
    with r.
  destruct newRowRef_fresh as [_ Hne].
  f_equal. f_equal.
  rewrite (insert_insert_ne _ r a') by done.
  by rewrite insert_insert_eq.
Qed.

(** No object of the old heap is written. *)
Lemma update_row_frame (o' o'' : JsHeap.hobj) (l : JsHeap.loc)
    (o : JsHeap.hobj) :
  h !! l = Some o ->
  (<[a' := o']> (<[r := o'']> h)) !! l = Some o.
Proof.
  intros Hl.
  assert (l <> a') by (intros ->; by rewrite newArrayRef_fresh in Hl).
  assert (l <> r).
  { intros ->. destruct newRowRef_fresh as [Hf _]. by rewrite Hf in Hl. }
  by rewrite !lookup_insert_ne.
Qed.

End UpdateRow.

Lemma is_array_index_true (index : Z) :
  0 <= index < JsHeap.INDEX_LIMIT -> JsHeap.is_array_index index = true.
Proof.
  intros [H0 H1]. unfold JsHeap.is_array_index.
  apply andb_true_iff. split; [by apply Z.leb_le | by apply Z.ltb_lt].
Qed.

Lemma is_array_index_false (index : Z) :
  index < 0 \/ JsHeap.INDEX_LIMIT <= index ->
  JsHeap.is_array_index index = false.
Proof.
  intros H. unfold JsHeap.is_array_index. apply andb_false_iff.
  destruct H; [left; by apply Z.leb_gt | right; by apply Z.ltb_ge].
Qed.

Lemma length_spread_array (arr : JsHeap.jsarray) :
  length (JsHeap.arr_elems (JsHeap.spread_array arr))
  = length (JsHeap.arr_elems arr).
Proof. unfold JsHeap.spread_array. simpl. by rewrite length_map. Qed.

Lemma spread_array_elem (arr : JsHeap.jsarray) (k : nat) (v : JsHeap.jsval) :
  JsHeap.arr_elems arr !! k = Some (JsHeap.Elem v) ->
  JsHeap.arr_elems (JsHeap.spread_array arr) !! k = Some (JsHeap.Elem v).
Proof.
  intros H. unfold JsHeap.spread_array. simpl.
  change (map ?f ?l) with (f <$> l). by rewrite list_lookup_fmap, H.
Qed.

(** A read outside the bounds of a fresh copy gives [undefined]. *)
Lemma array_get_outside (arr : JsHeap.jsarray) (index : Z) :
  index < 0 \/ Z.of_nat (length (JsHeap.arr_elems arr)) <= index ->
  JsHeap.array_get (JsHeap.spread_array arr) index = JsHeap.VUndefined.
Proof.
  intros H. unfold JsHeap.array_get.
  destruct (JsHeap.is_array_index index) eqn:E; [|done].
  apply andb_true_iff in E as [E0 _]. apply Z.leb_le in E0.
  destruct H as [H|H]; [lia|].
  rewrite lookup_ge_None_2; [done|]. rewrite length_spread_array. lia.
Qed.

Lemma array_get_inside (arr : JsHeap.jsarray) (i : nat) (v : JsHeap.jsval) :
  Z.of_nat i < JsHeap.INDEX_LIMIT ->
  JsHeap.arr_elems arr !! i = Some (JsHeap.Elem v) ->
  JsHeap.array_get arr (Z.of_nat i) = v.
Proof.
  intros Hi He. unfold JsHeap.array_get.
  rewrite is_array_index_true by lia. by rewrite Nat2Z.id, He.
Qed.

Lemma array_set_inside (arr : JsHeap.jsarray) (i : nat) (v : JsHeap.jsval) :
  Z.of_nat i < JsHeap.INDEX_LIMIT ->
  (i < length (JsHeap.arr_elems arr))%nat ->
  JsHeap.array_set (Z.of_nat i) v arr
  = JsHeap.mkArray (<[i := JsHeap.Elem v]> (JsHeap.arr_elems arr))
      (JsHeap.arr_extra arr).
Proof.
  intros Hi Hl. unfold JsHeap.array_set.
  rewrite is_array_index_true by lia. rewrite Nat2Z.id.
  by destruct (Nat.ltb_spec i (length (JsHeap.arr_elems arr))); [|lia].
Qed.

Lemma array_set_beyond (arr : JsHeap.jsarray) (index : Z) (v : JsHeap.jsval) :
  Z.of_nat (length (JsHeap.arr_elems arr)) <= index < JsHeap.INDEX_LIMIT ->
  JsHeap.array_set index v arr
  = JsHeap.mkArray
      (JsHeap.arr_elems arr
       ++ replicate (Z.to_nat index - length (JsHeap.arr_elems arr))
            JsHeap.Hole
       ++ [JsHeap.Elem v])
      (JsHeap.arr_extra arr).
Proof.
  intros [Hl Hi]. unfold JsHeap.array_set.
  rewrite is_array_index_true by lia.
  by destruct (Nat.ltb_spec (Z.to_nat index) (length (JsHeap.arr_elems arr)));
    [lia|].
Qed.

Lemma array_set_not_index (arr : JsHeap.jsarray) (index : Z) (v : JsHeap.jsval) :
  index < 0 \/ JsHeap.INDEX_LIMIT <= index ->
  JsHeap.array_set index v arr
  = JsHeap.mkArray (JsHeap.arr_elems arr)
      (<[index := v]> (JsHeap.arr_extra arr)).
Proof.
  intros H. unfold JsHeap.array_set. by rewrite is_array_index_false.
Qed.

(** Outside the bounds an assignment changes no position below the old
    length. *)
Lemma array_set_outside_prefix (arr : JsHeap.jsarray) (index : Z)
    (v : JsHeap.jsval) (k : nat) :
  index < 0 \/ Z.of_nat (length (JsHeap.arr_elems arr)) <= index ->
  (k < length (JsHeap.arr_elems arr))%nat ->
  JsHeap.arr_elems (JsHeap.array_set index v arr) !! k
  = JsHeap.arr_elems arr !! k.
Proof.
  intros H Hk. unfold JsHeap.array_set.
  destruct (JsHeap.is_array_index index) eqn:E; [|done].
  apply andb_true_iff in E as [E0 _]. apply Z.leb_le in E0.
  destruct H as [H|H]; [lia|].
  destruct (Nat.ltb_spec (Z.to_nat index) (length (JsHeap.arr_elems arr)));
    [lia|].
  simpl. by rewrite lookup_app_l.
Qed.

Lemma handler_update_row (u : JsHeap.RowUpdate) (index : Z)
    (entries : JsHeap.loc) (h : gmap JsHeap.loc JsHeap.hobj) :
  JsHeap.handler u index entries h
  = JsHeap.update_row index (JsHeap.updated_field u) (JsHeap.updated_value u)
      entries h.
Proof. by destruct u. Qed.

(** C10, as the code has it.  For an integer index outside the bounds of
    the array the three handlers return normally; no object of the heap
    is written, and every row of the old array stands at its position
    in the new one.  When the index is at least the length and below
    [2^32 - 1], the new array has length [index + 1], the positions from
    the old length up to the index are holes, and at the index stands a
    new row holding the updated field only.  When the index is negative
    or at least [2^32 - 1], the new array has the elements of the old one
    and no more: the new row is stored under a property that is not an
    element. *)
Theorem out_of_range_update :
  forall (u : JsHeap.RowUpdate) (index : Z) (entries : JsHeap.loc)
         (h : gmap JsHeap.loc JsHeap.hobj) (arr : JsHeap.jsarray),
    h !! entries = Some (JsHeap.HArray arr) ->
    index < 0 \/ Z.of_nat (length (JsHeap.arr_elems arr)) <= index ->
    exists (a' r : JsHeap.loc) (h' : gmap JsHeap.loc JsHeap.hobj)
           (arr' : JsHeap.jsarray),
      JsHeap.handler u index entries h = Some (a', h')
      /\ h !! a' = None /\ h !! r = None
      /\ h' !! a' = Some (JsHeap.HArray arr')
      /\ h' !! r
         = Some (JsHeap.HObject
                   {[ JsHeap.updated_field u := JsHeap.updated_value u ]})
      /\ (forall l o, h !! l = Some o -> h' !! l = Some o)
      /\ (forall k v, JsHeap.arr_elems arr !! k = Some (JsHeap.Elem v) ->
                      JsHeap.arr_elems arr' !! k = Some (JsHeap.Elem v))
      /\ (Z.of_nat (length (JsHeap.arr_elems arr)) <= index
          < JsHeap.INDEX_LIMIT ->
          JsHeap.arr_elems arr'
          = JsHeap.arr_elems (JsHeap.spread_array arr)
            ++ replicate (Z.to_nat index - length (JsHeap.arr_elems arr))
                 JsHeap.Hole
            ++ [JsHeap.Elem (JsHeap.VRef r)]
          /\ Z.of_nat (length (JsHeap.arr_elems arr')) = index + 1
          /\ JsHeap.arr_elems arr' !! Z.to_nat index
             = Some (JsHeap.Elem (JsHeap.VRef r))
          /\ JsHeap.arr_extra arr' = ∅)
      /\ (index < 0 \/ JsHeap.INDEX_LIMIT <= index ->
          JsHeap.arr_elems arr' = JsHeap.arr_elems (JsHeap.spread_array arr)
          /\ length (JsHeap.arr_elems arr') = length (JsHeap.arr_elems arr)
          /\ JsHeap.arr_extra arr' = {[ index := JsHeap.VRef r ]}).
Proof.
  intros u index entries h arr Hentries Hout.
  set (a' := JsHeap.newArrayRef h).
  set (r := JsHeap.newRowRef h arr).
  set (arr' := JsHeap.array_set index (JsHeap.VRef r)
                 (JsHeap.spread_array arr)).
  set (row := JsHeap.HObject
                (<[JsHeap.updated_field u := JsHeap.updated_value u]> ∅)).
  exists a', r, (<[a' := JsHeap.HArray arr']> (<[r := row]> h)), arr'.
  destruct (newRowRef_fresh h arr) as [Hr Hne].
  assert (Hout' : index < 0
                  \/ Z.of_nat (length (JsHeap.arr_elems
                                         (JsHeap.spread_array arr))) <= index)
    by by rewrite length_spread_array.
  split; [|split; [|split; [|split; [|split; [|split; [|split; [|split]]]]]]].
  - rewrite handler_update_row.
    apply (update_row_eq h arr index _ _ entries ∅ Hentries).
    by rewrite array_get_outside.
  - apply newArrayRef_fresh.
  - exact Hr.
  - by rewrite lookup_insert_eq.
  - rewrite lookup_insert_ne by done. rewrite lookup_insert_eq.
    unfold row. by rewrite insert_empty.
  - intros l o Hl. by apply update_row_frame.
  - intros k v Hk. unfold arr'.
    rewrite array_set_outside_prefix; [by apply spread_array_elem|done|].
    rewrite length_spread_array. by apply lookup_lt_Some in Hk.
  - intros Hin. unfold arr'.
    rewrite array_set_beyond by (rewrite length_spread_array; lia).
    rewrite length_spread_array. cbn [JsHeap.arr_elems JsHeap.arr_extra].
    split; [done|]. split; [|split; [|done]].
    + rewrite !length_app, length_spread_array, length_replicate. simpl. lia.
    + rewrite app_assoc.
      assert (Hlen : length (JsHeap.arr_elems (JsHeap.spread_array arr)
                             ++ replicate
                                  (Z.to_nat index
                                   - length (JsHeap.arr_elems arr))
                                  JsHeap.Hole)
                     = Z.to_nat index).
      { rewrite length_app, length_spread_array, length_replicate. lia. }
      rewrite <- Hlen at 1. by rewrite list_lookup_middle.
  - intros Hni. unfold arr'. rewrite array_set_not_index by done.
    cbn [JsHeap.arr_elems JsHeap.arr_extra].
    split; [done|]. split; [apply length_spread_array|].
    unfold JsHeap.spread_array. cbn [JsHeap.arr_extra].
    by rewrite insert_empty.
Qed.

Lemma seedHeap_array :
  JsHeap.seedHeap !! 0%nat = Some (JsHeap.HArray JsHeap.seedRows).
Proof. vm_compute. reflexivity. Defined.

(** The default rows, a quantity written at index 4. *)
Lemma out_of_range_update_witness :
  JsHeap.seedHeap !! 0%nat = Some (JsHeap.HArray JsHeap.seedRows)
  /\ exists (a' r : JsHeap.loc) (h' : gmap JsHeap.loc JsHeap.hobj)
            (arr' : JsHeap.jsarray),
       JsHeap.onCashEntryKeyup 4 Fquantity (Some 5) 0%nat JsHeap.seedHeap
       = Some (a', h')
       /\ h' !! a' = Some (JsHeap.HArray arr')
       /\ JsHeap.arr_elems arr'
          = [JsHeap.Elem (JsHeap.VRef 1%nat);
             JsHeap.Elem (JsHeap.VRef 2%nat);
             JsHeap.Elem (JsHeap.VRef 3%nat);
             JsHeap.Hole;
             JsHeap.Elem (JsHeap.VRef r)]
       /\ h' !! r = Some (JsHeap.HObject {[ "quantity" := JsHeap.VNum 5 ]}).
Proof.
  split; [exact seedHeap_array|].
  destruct (out_of_range_update (JsHeap.CashKeyup Fquantity (Some 5)) 4
              0%nat JsHeap.seedHeap JsHeap.seedRows seedHeap_array)
    as (a' & r & h' & arr' & Hh & _ & _ & Ha & Hr & _ & _ & Hgrow & _).
  - right. simpl. lia.
  - exists a', r, h', arr'. split; [exact Hh|]. split; [exact Ha|].
    split; [|exact Hr].
    destruct Hgrow as (-> & _).
    + simpl. unfold JsHeap.INDEX_LIMIT. lia.
    + reflexivity.
Defined.

(** C10, as stated, fails at the first integer that is not an array
    index: the handler returns an array with the three old rows, of
    length 3 and with no element at that index; the new row is a
    property of the array that no iteration visits. *)
Lemma out_of_range_counterexample :
  let index := 4294967295 in
  Z.of_nat (length (JsHeap.arr_elems JsHeap.seedRows)) <= index
  /\ exists (a' r : JsHeap.loc) (h' : gmap JsHeap.loc JsHeap.hobj)
            (arr' : JsHeap.jsarray),
       JsHeap.onCashEntryKeyup index Fquantity (Some 5) 0%nat JsHeap.seedHeap
       = Some (a', h')
       /\ h' !! a' = Some (JsHeap.HArray arr')
       /\ JsHeap.arr_elems arr'
          = [JsHeap.Elem (JsHeap.VRef 1%nat);
             JsHeap.Elem (JsHeap.VRef 2%nat);
             JsHeap.Elem (JsHeap.VRef 3%nat)]
       /\ JsHeap.arr_extra arr' = {[ index := JsHeap.VRef r ]}
       /\ Z.of_nat (length (JsHeap.arr_elems arr')) <> index + 1
       /\ JsHeap.arr_elems arr' !! Z.to_nat index = None.
Proof.
  intros index. split; [unfold index; simpl; lia|].
  pose (res := JsHeap.onCashEntryKeyup index Fquantity (Some 5) 0%nat
                 JsHeap.seedHeap).
  pose (a' := default 0%nat (fst <$> res)).
  pose (h' := default ∅ (snd <$> res)).
  pose (r := JsHeap.newRowRef JsHeap.seedHeap JsHeap.seedRows).
  exists a', r, h',
    (JsHeap.mkArray
       [JsHeap.Elem (JsHeap.VRef 1%nat); JsHeap.Elem (JsHeap.VRef 2%nat);
        JsHeap.Elem (JsHeap.VRef 3%nat)]
       {[ index := JsHeap.VRef r ]}).
  split; [vm_compute; reflexivity|].
  split; [vm_compute; reflexivity|].
  split; [reflexivity|]. split; [reflexivity|].
  cbn [JsHeap.arr_elems]. split.
  - unfold index. simpl length. lia.
  - apply lookup_ge_None_2. unfold index. simpl length. lia.
Qed.

(** ** Updates of a row that exists *)

Section TypedRows.

Context {A : Type} (obj : A -> gmap string JsHeap.jsval).

Lemma holds_row_mono (h h' : gmap JsHeap.loc JsHeap.hobj)
    (s : JsHeap.slot) (x : A) :
  (forall p o, h !! p = Some o -> h' !! p = Some o) ->
  JsHeap.holds_row obj h s x -> JsHeap.holds_row obj h' s x.
Proof. intros Hf (p & -> & Hp). exists p. split; [done|]. by apply Hf. Qed.

(** An array of rows has no hole: its spread copy has the same
    elements. *)
Lemma holds_rows_dense (h : gmap JsHeap.loc JsHeap.hobj)
    (arr : JsHeap.jsarray) (l : list A) :
  Forall2 (JsHeap.holds_row obj h) (JsHeap.arr_elems arr) l ->
  JsHeap.spread_array arr = JsHeap.mkArray (JsHeap.arr_elems arr) ∅.
Proof.
  unfold JsHeap.spread_array. intros HF. f_equal.
  induction HF as [|s x elems l' (p & -> & _) _ IH]; simpl; [done|].
  by rewrite IH.
Qed.

Lemma update_row_typed (h : gmap JsHeap.loc JsHeap.hobj) (a : JsHeap.loc)
    (l : list A) (i : nat) (old new : A) (field : string)
    (value : JsHeap.jsval) :
  JsHeap.holds_rows obj h a l ->
  l !! i = Some old ->
  <[field := value]> (obj old) = obj new ->
  JsHeap.copy_on_write obj h a l (<[i := new]> l)
    (JsHeap.update_row (Z.of_nat i) field value a h).
Proof.
  intros (arr & Ha & Hlen & HF) Hi Hobj.
  destruct (Forall2_lookup_r _ _ _ _ _ HF Hi) as (s & Hs & p & -> & Hp).
  pose proof (holds_rows_dense h arr l HF) as Hdense.
  assert (Hlt : (i < length (JsHeap.arr_elems arr))%nat)
    by by apply lookup_lt_Some in Hs.
  set (a' := JsHeap.newArrayRef h).
  set (r := JsHeap.newRowRef h arr).
  set (arr' := JsHeap.mkArray
                 (<[i := JsHeap.Elem (JsHeap.VRef r)]> (JsHeap.arr_elems arr))
                 ∅).
  set (h' := <[a' := JsHeap.HArray arr']>
               (<[r := JsHeap.HObject (obj new)]> h)).
  assert (Hframe : forall q o, h !! q = Some o -> h' !! q = Some o).
  { intros q o Hq. by apply update_row_frame. }
  destruct (newRowRef_fresh h arr) as [Hr Hne].
  exists a', h'. split; [|split; [|split; [|split]]].
  - rewrite (update_row_eq h arr (Z.of_nat i) field value a (obj old) Ha).
    + rewrite Hdense, array_set_inside by (simpl; done || lia).
      by rewrite Hobj.
    + rewrite Hdense.
      rewrite (array_get_inside _ i (JsHeap.VRef p)) by (simpl; done || lia).
      simpl. by rewrite Hp.
  - apply newArrayRef_fresh.
  - exists arr'. split; [|split].
    + unfold h'. by rewrite lookup_insert_eq.
    + unfold arr'. simpl. by rewrite length_insert.
    + unfold arr'. simpl. apply Forall2_insert.
      * eapply Forall2_impl; [exact HF|].
        intros s x. by apply holds_row_mono.
      * exists r. split; [done|]. unfold h'.
        rewrite lookup_insert_ne by done. by rewrite lookup_insert_eq.
  - exists arr. split; [by apply Hframe|]. split; [done|].
    eapply Forall2_impl; [exact HF|].
    intros s x. by apply holds_row_mono.
  - exact Hframe.
Qed.

End TypedRows.

Lemma only_row_changed_insert {A : Type} (l : list A) (i : nat) (x : A) :
  only_row_changed l (<[i := x]> l) i.
Proof.
  split; [by rewrite length_insert|].
  intros k Hk. by rewrite list_lookup_insert_ne.
Qed.

Lemma cash_object_update (field : CashField) (v : option Z) (old : CashEntry) :
  <[JsHeap.field_name field := JsHeap.of_number v]> (JsHeap.cash_object old)
  = JsHeap.cash_object (withCashField field v old).
Proof.
  unfold JsHeap.cash_object. destruct field; simpl.
  - by rewrite insert_insert_eq.
  - rewrite insert_insert_ne by done. by rewrite insert_singleton.
Qed.

Lemma expense_object_detail (v : string) (old : ExpenseEntry) :
  <["detail" := JsHeap.VStr v]> (JsHeap.expense_object old)
  = JsHeap.expense_object (mkExpenseEntry v (amount old)).
Proof. unfold JsHeap.expense_object. simpl. by rewrite insert_insert_eq. Qed.

Lemma expense_object_amount (v : option Z) (old : ExpenseEntry) :
  <["amount" := JsHeap.of_number v]> (JsHeap.expense_object old)
  = JsHeap.expense_object (mkExpenseEntry (detail old) v).
Proof.
  unfold JsHeap.expense_object. simpl.
  rewrite insert_insert_ne by done. by rewrite insert_singleton.
Qed.

(** C9. For an index inside the bounds, each per-row update (cash
    denomination or quantity, expense detail or amount) gives a list that
    differs from the old one in the updated field of the row at that
    index only: the length and every other row are the same, the other
    field of that row is unchanged; and the update writes a new array
    and a new row, so that the old array, through any reference taken
    before, still holds the old rows. *)
Theorem row_update_in_bounds :
  (forall (h : gmap JsHeap.loc JsHeap.hobj) (a : JsHeap.loc)
          (l : list CashEntry) (i : nat) (old : CashEntry)
          (field : CashField) (v : option Z),
      JsHeap.holds_rows JsHeap.cash_object h a l ->
      l !! i = Some old ->
      let new := withCashField field (getNumberValue v) old in
      onCashEntryKeyup i field v l = Some (<[i := new]> l)
      /\ JsHeap.copy_on_write JsHeap.cash_object h a l (<[i := new]> l)
           (JsHeap.onCashEntryKeyup (Z.of_nat i) field v a h)
      /\ only_row_changed l (<[i := new]> l) i
      /\ <[i := new]> l !! i = Some new
      /\ match field with
         | Fdenomination =>
             denomination new = getNumberValue v
             /\ quantity new = quantity old
         | Fquantity =>
             quantity new = getNumberValue v
             /\ denomination new = denomination old
         end)
  /\ (forall (h : gmap JsHeap.loc JsHeap.hobj) (a : JsHeap.loc)
             (l : list ExpenseEntry) (i : nat) (old : ExpenseEntry)
             (v : string),
        JsHeap.holds_rows JsHeap.expense_object h a l ->
        l !! i = Some old ->
        let new := mkExpenseEntry (getStringValue v) (amount old) in
        onExpenseDetailKeyup i v l = Some (<[i := new]> l)
        /\ JsHeap.copy_on_write JsHeap.expense_object h a l (<[i := new]> l)
             (JsHeap.onExpenseDetailKeyup (Z.of_nat i) v a h)
        /\ only_row_changed l (<[i := new]> l) i
        /\ <[i := new]> l !! i = Some new
        /\ detail new = getStringValue v /\ amount new = amount old)
  /\ (forall (h : gmap JsHeap.loc JsHeap.hobj) (a : JsHeap.loc)
             (l : list ExpenseEntry) (i : nat) (old : ExpenseEntry)
             (v : option Z),
        JsHeap.holds_rows JsHeap.expense_object h a l ->
        l !! i = Some old ->
        let new := mkExpenseEntry (detail old) (getNumberValue v) in
        onExpenseAmountKeyup i v l = Some (<[i := new]> l)
        /\ JsHeap.copy_on_write JsHeap.expense_object h a l (<[i := new]> l)
             (JsHeap.onExpenseAmountKeyup (Z.of_nat i) v a h)
        /\ only_row_changed l (<[i := new]> l) i
        /\ <[i := new]> l !! i = Some new
        /\ amount new = getNumberValue v /\ detail new = detail old).
Proof.
  split; [|split].
  - intros h a l i old field v Hrows Hi new.
    assert (Hlt : (i < length l)%nat) by by apply lookup_lt_Some in Hi.
    split; [|split; [|split; [|split]]].
    + unfold onCashEntryKeyup. cbv zeta. by rewrite Hi.
    + unfold JsHeap.onCashEntryKeyup. cbv zeta.
      apply (update_row_typed JsHeap.cash_object h a l i old new);
        [done|done|apply cash_object_update].
    + apply only_row_changed_insert.
    + by apply list_lookup_insert_eq.
    + by destruct field.
  - intros h a l i old v Hrows Hi new.
    assert (Hlt : (i < length l)%nat) by by apply lookup_lt_Some in Hi.
    split; [|split; [|split; [|split]]].
    + unfold onExpenseDetailKeyup. cbv zeta. by rewrite Hi.
    + unfold JsHeap.onExpenseDetailKeyup. cbv zeta.
      apply (update_row_typed JsHeap.expense_object h a l i old new);
        [done|done|apply expense_object_detail].
    + apply only_row_changed_insert.
    + by apply list_lookup_insert_eq.
    + done.
  - intros h a l i old v Hrows Hi new.
    assert (Hlt : (i < length l)%nat) by by apply lookup_lt_Some in Hi.
    split; [|split; [|split; [|split]]].
    + unfold onExpenseAmountKeyup. cbv zeta. by rewrite Hi.
    + unfold JsHeap.onExpenseAmountKeyup. cbv zeta.
      apply (update_row_typed JsHeap.expense_object h a l i old new);
        [done|done|apply expense_object_amount].
    + apply only_row_changed_insert.
    + by apply list_lookup_insert_eq.
    + done.
Qed.

Lemma seedHeap_holds_rows :
  JsHeap.holds_rows JsHeap.cash_object JsHeap.seedHeap 0%nat
    DEFAULT_CASH_ENTRIES.
Proof.
  exists JsHeap.seedRows.
  split; [exact seedHeap_array|]. split; [vm_compute; discriminate|].
  repeat constructor.
  - exists 1%nat. split; [reflexivity|vm_compute; reflexivity].
  - exists 2%nat. split; [reflexivity|vm_compute; reflexivity].
  - exists 3%nat. split; [reflexivity|vm_compute; reflexivity].
Defined.

Lemma expenseHeap_holds_rows :
  JsHeap.holds_rows JsHeap.expense_object JsHeap.expenseHeap 0%nat
    [mkExpenseEntry "ice" (Some 15)].
Proof.
  exists (JsHeap.mkArray [JsHeap.Elem (JsHeap.VRef 1%nat)] ∅).
  split; [vm_compute; reflexivity|]. split; [vm_compute; discriminate|].
  repeat constructor.
  exists 1%nat. split; [reflexivity|vm_compute; reflexivity].
Defined.

(** A quantity typed into the second default cash row, and a detail and
    an amount typed into an expense row. *)
Lemma row_update_in_bounds_witness :
  (JsHeap.holds_rows JsHeap.cash_object JsHeap.seedHeap 0%nat
     DEFAULT_CASH_ENTRIES
   /\ DEFAULT_CASH_ENTRIES !! 1%nat = Some (mkCashEntry (Some 10000) None)
   /\ onCashEntryKeyup 1 Fquantity (Some 4) DEFAULT_CASH_ENTRIES
      = Some [ mkCashEntry (Some 20000) None;
               mkCashEntry (Some 10000) (Some 4);
               mkCashEntry (Some 2000) None ]
   /\ JsHeap.copy_on_write JsHeap.cash_object JsHeap.seedHeap 0%nat
        DEFAULT_CASH_ENTRIES
        [ mkCashEntry (Some 20000) None;
          mkCashEntry (Some 10000) (Some 4);
          mkCashEntry (Some 2000) None ]
        (JsHeap.onCashEntryKeyup 1 Fquantity (Some 4) 0%nat JsHeap.seedHeap))
  /\ JsHeap.copy_on_write JsHeap.expense_object JsHeap.expenseHeap 0%nat
       [mkExpenseEntry "ice" (Some 15)] [mkExpenseEntry "hielo" (Some 15)]
       (JsHeap.onExpenseDetailKeyup 0 "hielo" 0%nat JsHeap.expenseHeap)
  /\ JsHeap.copy_on_write JsHeap.expense_object JsHeap.expenseHeap 0%nat
       [mkExpenseEntry "ice" (Some 15)] [mkExpenseEntry "ice" None]
       (JsHeap.onExpenseAmountKeyup 0 None 0%nat JsHeap.expenseHeap).
Proof.
  destruct row_update_in_bounds as (Hcash & Hdetail & Hamount).
  split; [|split].
  - destruct (Hcash JsHeap.seedHeap 0%nat DEFAULT_CASH_ENTRIES 1%nat
                (mkCashEntry (Some 10000) None) Fquantity (Some 4)
                seedHeap_holds_rows eq_refl) as (H1 & H2 & _).
    split; [exact seedHeap_holds_rows|]. split; [reflexivity|].
    split; [exact H1|exact H2].
  - destruct (Hdetail JsHeap.expenseHeap 0%nat
                [mkExpenseEntry "ice" (Some 15)] 0%nat
                (mkExpenseEntry "ice" (Some 15)) "hielo"
                expenseHeap_holds_rows eq_refl) as (_ & H2 & _).
    exact H2.
  - destruct (Hamount JsHeap.expenseHeap 0%nat
                [mkExpenseEntry "ice" (Some 15)] 0%nat
                (mkExpenseEntry "ice" (Some 15)) None
                expenseHeap_holds_rows eq_refl) as (_ & H2 & _).
    exact H2.
Defined.

(** * Further properties of the component *)

(** ** Expense subtotal and the batch *)

Lemma reduce_expenses_acc (rows : list ExpenseEntry) (acc : Z) :
  reduce (fun acc expense => acc + (amount expense ?? 0)) acc rows
  = acc + sumZ (amounts rows).
Proof.
  unfold reduce. revert acc.
  induction rows as [|e rows IH]; intros acc; simpl; [lia|].
  rewrite IH. unfold sumZ, amounts. simpl. lia.
Qed.

Lemma expensesSubtotal_sumZ (f : FormState) :
  expensesSubtotal f = sumZ (amounts (expenses f)).
Proof.
  unfold expensesSubtotal. cbv zeta. rewrite reduce_expenses_acc. lia.
Qed.

Lemma sumZ_app (l l' : list Z) : sumZ (l ++ l') = sumZ l + sumZ l'.
Proof.
  unfold sumZ. induction l as [|x l IH]; simpl; [done|]. rewrite IH. lia.
Qed.

Lemma expense_logs_of_batch (now : string) (f : FormState) :
  List.filter isExpenseLog (buildLogEntries now f)
  = map (expenseLog now f) (List.filter qualifies (expenses f)).
Proof.
  rewrite buildLogEntries_batchSpec. unfold batchSpec.
  rewrite !List.filter_app.
  rewrite !filter_isExpenseLog_income by done.
  rewrite filter_isExpenseLog_expenses.
  unfold cashIncomeEntries, summaryEntries.
  destruct (0 <? cashSubtotal f), (dailySummary f); simpl;
    by rewrite ?app_nil_r.
Qed.

(** X1. An expense row that the batch skips still counts in the totals:
    with such a row at the end of the list, [expensesSubtotal] is the
    subtotal of the rows before it plus its amount (absent as 0), and
    [absoluteTotal] and [difference] are computed from that subtotal,
    while the expense entries of the batch are those of the rows before
    it. *)
Theorem skipped_expense_row_still_counts :
  forall (now : string) (f : FormState) (e : ExpenseEntry),
    qualifies e = false ->
    let f' := set_expenses (expenses f ++ [e]) f in
    expensesSubtotal f' = expensesSubtotal f + (amount e ?? 0)
    /\ absoluteTotal f'
       = totalIncome f + (expensesSubtotal f + (amount e ?? 0))
    /\ difference f'
       = totalIncome f + (expensesSubtotal f + (amount e ?? 0))
         - (dailySummary f ?? 0)
    /\ List.filter isExpenseLog (buildLogEntries now f')
       = List.filter isExpenseLog (buildLogEntries now f).
Proof.
  intros now f e He f'.
  assert (Hs : expensesSubtotal f'
               = expensesSubtotal f + (amount e ?? 0)).
  { unfold expensesSubtotal, reduce, f'. cbn [expenses set_expenses].
    by rewrite fold_left_app. }
  split; [exact Hs|]. split; [|split].
  - unfold absoluteTotal. by rewrite Hs.
  - unfold difference, absoluteTotal. by rewrite Hs.
  - rewrite !expense_logs_of_batch. unfold f'. cbn [expenses set_expenses].
    rewrite List.filter_app. cbn [List.filter]. rewrite He.
    by rewrite app_nil_r.
Qed.

Lemma skipped_expense_row_still_counts_witness :
  let f := mkFormState "Ana" "tarde" None None None (Some 20) []
             [mkExpenseEntry "ice" (Some 15)] in
  let f' := set_expenses (expenses f ++ [mkExpenseEntry "" (Some 7)]) f in
  qualifies (mkExpenseEntry "" (Some 7)) = false
  /\ expensesSubtotal f' = 22
  /\ difference f' = 2
  /\ map le_amount (List.filter isExpenseLog (buildLogEntries "t" f')) = [-15].
Proof.
  intros f f'.
  destruct (skipped_expense_row_still_counts "t" f
              (mkExpenseEntry "" (Some 7)) eq_refl) as (Hs & _ & Hd & Hb).
  split; [reflexivity|]. split; [|split].
  - unfold f'. rewrite Hs. reflexivity.
  - unfold f'. rewrite Hd. reflexivity.
  - unfold f'. rewrite Hb. reflexivity.
Defined.

(** ** What the batch holds *)

Lemma incomeEntries_nil now f imputation entry (x : option Z) :
  incomeEntries now f imputation entry x = [] <-> x ?? 0 <= 0.
Proof.
  unfold incomeEntries, nullish. destruct x as [v|]; [|split; [lia|done]].
  destruct (Z.ltb_spec 0 v); split; try done; lia.
Qed.

Lemma cashIncomeEntries_nil now f :
  cashIncomeEntries now f = [] <-> cashSubtotal f <= 0.
Proof.
  unfold cashIncomeEntries.
  destruct (Z.ltb_spec 0 (cashSubtotal f)); split; try done; lia.
Qed.

Lemma summaryEntries_nil now f :
  summaryEntries now f = [] <-> dailySummary f = None.
Proof. unfold summaryEntries. by destruct (dailySummary f). Qed.

(** X2. The batch is empty, so that [submitForm] reports that there is
    nothing to register, exactly when none of the three digital incomes
    is greater than 0, the cash subtotal is not greater than 0, no
    expense row qualifies and the daily summary is absent. *)
Theorem buildLogEntries_empty_iff :
  forall (now : string) (f : FormState),
    buildLogEntries now f = []
    <-> firstDataIncome f ?? 0 <= 0
        /\ pedidosYaIncome f ?? 0 <= 0
        /\ mercadoPagoIncome f ?? 0 <= 0
        /\ cashSubtotal f <= 0
        /\ List.filter qualifies (expenses f) = []
        /\ dailySummary f = None.
Proof.
  intros now f. rewrite buildLogEntries_batchSpec. unfold batchSpec.
  rewrite !app_nil.
  rewrite !incomeEntries_nil, cashIncomeEntries_nil, summaryEntries_nil.
  split.
  - intros (H1 & H2 & H3 & H4 & H5 & H6). repeat split; try done.
    by apply map_eq_nil in H5.
  - intros (H1 & H2 & H3 & H4 & H5 & H6). repeat split; try done.
    by rewrite H5.
Qed.

(** A form with a negative income and a zero quantity has nothing to
    register; one with a daily summary of 0 has. *)
Lemma buildLogEntries_empty_iff_witness :
  buildLogEntries "t"
    (mkFormState "Ana" "tarde" (Some (-50)) None (Some 0) None
       [mkCashEntry (Some 1000) (Some 0)] [mkExpenseEntry "" (Some 9)]) = []
  /\ buildLogEntries "t"
       (mkFormState "Ana" "tarde" None None None (Some 0) [] []) <> [].
Proof.
  split.
  - apply (proj2 (buildLogEntries_empty_iff "t" _)).
    repeat split; simpl; (lia || reflexivity).
  - intros H. apply (proj1 (buildLogEntries_empty_iff "t" _)) in H.
    destruct H as (_ & _ & _ & _ & _ & H). discriminate.
Defined.

Lemma incomeEntries_Forall (P : LogEntry -> Prop) now f imputation entry x :
  (forall v, 0 < v ->
     P (mkLogEntry now (closerName f) (shift f) imputation entry v)) ->
  Forall P (incomeEntries now f imputation entry x).
Proof.
  intros HP. unfold incomeEntries. destruct x as [v|]; [|constructor].
  destruct (Z.ltb_spec 0 v); repeat constructor. by apply HP.
Qed.

Lemma expenseLogs_Forall (P : LogEntry -> Prop) now f
    (rows : list ExpenseEntry) :
  (forall e, qualifies e = true -> P (expenseLog now f e)) ->
  Forall P (map (expenseLog now f) (List.filter qualifies rows)).
Proof.
  intros HP. induction rows as [|e rows IH]; simpl; [constructor|].
  destruct (qualifies e) eqn:E; [|done]. simpl. constructor; [|done].
  by apply HP.
Qed.

Lemma buildLogEntries_stamped (now : string) (f : FormState) :
  Forall (fun e =>
            day e = now /\ le_closerName e = closerName f
            /\ le_shift e = shift f
            /\ accountingImputation e ∈ IMPUTATIONS)
         (buildLogEntries now f).
Proof.
  rewrite buildLogEntries_batchSpec. unfold batchSpec.
  rewrite !Forall_app. unfold IMPUTATIONS.
  split; [|split; [|split; [|split; [|split]]]].
  - apply incomeEntries_Forall. intros v _. simpl. set_solver.
  - apply incomeEntries_Forall. intros v _. simpl. set_solver.
  - apply incomeEntries_Forall. intros v _. simpl. set_solver.
  - unfold cashIncomeEntries. destruct (0 <? cashSubtotal f);
      repeat constructor; simpl; set_solver.
  - apply expenseLogs_Forall. intros e _. simpl. set_solver.
  - unfold summaryEntries. destruct (dailySummary f);
      repeat constructor; simpl; set_solver.
Qed.

(** X3. Every entry of a batch carries the one timestamp taken for the
    batch and the closer name and the shift of the form, and its
    category is one of the six that [submitForm] writes. *)
Theorem batch_entries_stamped :
  forall (now : string) (f : FormState),
    Forall (fun e =>
              day e = now /\ le_closerName e = closerName f
              /\ le_shift e = shift f
              /\ accountingImputation e ∈ IMPUTATIONS)
           (buildLogEntries now f).
Proof. exact buildLogEntries_stamped. Qed.

(** X4. In a batch the sign of the amount tells income from expense:
    the amount of an expense entry is negative, and the amount of every
    other entry but the two closing ones is positive. *)
Theorem batch_amount_signs :
  forall (now : string) (f : FormState),
    Forall (fun e =>
              if isExpenseLog e then le_amount e < 0
              else if isMovement e then 0 < le_amount e
              else accountingImputation e = "Cierre")
           (buildLogEntries now f).
Proof.
  intros now f. rewrite buildLogEntries_batchSpec. unfold batchSpec.
  rewrite !Forall_app.
  split; [|split; [|split; [|split; [|split]]]].
  - apply incomeEntries_Forall. intros v Hv. simpl. done.
  - apply incomeEntries_Forall. intros v Hv. simpl. done.
  - apply incomeEntries_Forall. intros v Hv. simpl. done.
  - unfold cashIncomeEntries.
    destruct (Z.ltb_spec 0 (cashSubtotal f)); repeat constructor.
    simpl. done.
  - apply expenseLogs_Forall. intros e He.
    apply qualifies_iff in He as (a & Ha & Hpos & _).
    unfold expenseLog, isExpenseLog. simpl. rewrite Ha. simpl. lia.
  - unfold summaryEntries. destruct (dailySummary f);
      repeat constructor.
Qed.

(** ** Adding and removing rows *)

Lemma sumOverRows_app (l l' : list CashEntry) :
  sumOverRows (l ++ l') = sumOverRows l + sumOverRows l'.
Proof. induction l as [|e l IH]; simpl; [done|]. rewrite IH. lia. Qed.

(** The batch depends on the cash rows through their subtotal only, and
    on the expense rows through the qualifying ones and their subtotal. *)
Lemma buildLogEntries_ext (now : string) (f f' : FormState) :
  closerName f' = closerName f ->
  shift f' = shift f ->
  firstDataIncome f' = firstDataIncome f ->
  pedidosYaIncome f' = pedidosYaIncome f ->
  mercadoPagoIncome f' = mercadoPagoIncome f ->
  dailySummary f' = dailySummary f ->
  cashSubtotal f' = cashSubtotal f ->
  expensesSubtotal f' = expensesSubtotal f ->
  List.filter qualifies (expenses f') = List.filter qualifies (expenses f) ->
  buildLogEntries now f' = buildLogEntries now f.
Proof.
  intros Hn Hs H1 H2 H3 Hd Hc He Hq.
  rewrite !buildLogEntries_batchSpec. unfold batchSpec.
  assert (Hdiff : difference f' = difference f).
  { unfold difference, absoluteTotal, totalIncome, digitalIncomeSubtotal.
    cbv zeta. by rewrite H1, H2, H3, Hd, Hc, He. }
  unfold incomeEntries, cashIncomeEntries, summaryEntries, expenseLog.
  by rewrite Hn, Hs, H1, H2, H3, Hd, Hc, Hq, Hdiff.
Qed.

(** X6. A blank row added by [addCashEntry] or [addExpense] goes to the
    end of its list, and it changes neither a subtotal, nor the
    difference, nor the batch a submission would build. *)
Theorem added_row_changes_no_total :
  forall (w w' : World),
    step AddCashEntry w = Some w' \/ step AddExpense w = Some w' ->
    (cashEntries (form (app w'))
     = cashEntries (form (app w)) ++ [mkCashEntry None None]
     /\ expenses (form (app w')) = expenses (form (app w))
     \/ expenses (form (app w'))
        = expenses (form (app w)) ++ [mkExpenseEntry "" None]
        /\ cashEntries (form (app w')) = cashEntries (form (app w)))
    /\ cashSubtotal (form (app w')) = cashSubtotal (form (app w))
    /\ expensesSubtotal (form (app w')) = expensesSubtotal (form (app w))
    /\ difference (form (app w')) = difference (form (app w))
    /\ forall now : string,
         buildLogEntries now (form (app w'))
         = buildLogEntries now (form (app w)).
Proof.
  intros w w' [Hs|Hs]; injection Hs as <-; cbn [form_update app form].
  - set (f := form (app w)).
    set (f' := set_cashEntries (addCashEntry (cashEntries f)) f).
    assert (Hc : cashSubtotal f' = cashSubtotal f).
    { rewrite !cashSubtotal_sumOverRows. unfold f', addCashEntry. simpl.
      rewrite sumOverRows_app. simpl. unfold rowValue. simpl. lia. }
    assert (He : expensesSubtotal f' = expensesSubtotal f) by reflexivity.
    split; [left; done|]. split; [exact Hc|]. split; [exact He|]. split.
    + unfold difference, absoluteTotal, totalIncome. rewrite Hc, He.
      reflexivity.
    + intros now. by apply buildLogEntries_ext.
  - set (f := form (app w)).
    set (f' := set_expenses (addExpense (expenses f)) f).
    assert (Hc : cashSubtotal f' = cashSubtotal f) by reflexivity.
    assert (He : expensesSubtotal f' = expensesSubtotal f).
    { rewrite !expensesSubtotal_sumZ. unfold f', addExpense, amounts. simpl.
      rewrite map_app, sumZ_app. unfold sumZ. simpl. lia. }
    split; [right; done|]. split; [exact Hc|]. split; [exact He|]. split.
    + unfold difference, absoluteTotal, totalIncome. rewrite Hc, He.
      reflexivity.
    + intros now. apply buildLogEntries_ext; try done.
      unfold f', addExpense. simpl. rewrite List.filter_app. simpl.
      by rewrite app_nil_r.
Qed.

Lemma added_row_changes_no_total_witness :
  let w := mkWorld
             (mkApp (mkFormState "Ana" "tarde" (Some 100) None None (Some 90)
                       [mkCashEntry (Some 20000) (Some 2)]
                       [mkExpenseEntry "ice" (Some 15)])
                    idle None []) [] [] [] in
  exists w',
    step AddExpense w = Some w'
    /\ length (expenses (form (app w'))) = 2%nat
    /\ buildLogEntries "t" (form (app w')) = buildLogEntries "t" (form (app w)).
Proof.
  intros w. eexists. split; [reflexivity|]. split; [reflexivity|].
  apply (added_row_changes_no_total w _ (or_intror eq_refl)).
Defined.

Lemma filter_from_all {A : Type} (p : A -> nat -> bool) (n : nat)
    (l : list A) :
  (forall x j, (n <= j)%nat -> p x j = true) ->
  filter_from p n l = l.
Proof.
  revert n. induction l as [|x l IH]; intros n Hp; simpl; [done|].
  rewrite Hp by lia. f_equal. apply IH. intros y j Hj. apply Hp. lia.
Qed.

Lemma filter_from_delete {A : Type} (n i : nat) (l : list A) :
  filter_from (fun _ j => negb (j =? n + i)%nat) n l = delete i l.
Proof.
  revert n i. induction l as [|x l IH]; intros n i; simpl; [done|].
  destruct i as [|i].
  - rewrite Nat.add_0_r, Nat.eqb_refl. simpl.
    apply filter_from_all. intros y j Hj.
    destruct (Nat.eqb_spec j n); [lia|done].
  - destruct (Nat.eqb_spec n (n + S i)); [lia|]. simpl. f_equal.
    rewrite <- (IH (S n) i). f_equal.
    replace (S n + i)%nat with (n + S i)%nat by lia. done.
Qed.

Lemma removeCashEntry_delete (index : nat) (l : list CashEntry) :
  removeCashEntry index l = delete index l.
Proof. unfold removeCashEntry. apply (filter_from_delete 0 index l). Qed.

Lemma removeExpense_delete (index : nat) (l : list ExpenseEntry) :
  removeExpense index l = delete index l.
Proof. unfold removeExpense. apply (filter_from_delete 0 index l). Qed.

Lemma delete_ge_id {A : Type} (l : list A) (i : nat) :
  (length l <= i)%nat -> delete i l = l.
Proof.
  revert i. induction l as [|x l IH]; intros i Hi; [by destruct i|].
  destruct i as [|i]; simpl in *; [lia|]. f_equal. apply IH. lia.
Qed.

(** X7. [removeCashEntry] and [removeExpense] take out the row at the
    index and no other: the rows before it keep their index, the rows
    after it move down by one, and the list is one shorter; for an index
    that addresses no row the list is returned as it is. *)
Theorem removed_row_positions :
  (forall (index : nat) (l : list CashEntry),
      (forall k, (k < index)%nat -> removeCashEntry index l !! k = l !! k)
      /\ (forall k, (index <= k)%nat ->
                    removeCashEntry index l !! k = l !! S k)
      /\ ((index < length l)%nat ->
          S (length (removeCashEntry index l)) = length l)
      /\ ((length l <= index)%nat -> removeCashEntry index l = l))
  /\ (forall (index : nat) (l : list ExpenseEntry),
        (forall k, (k < index)%nat -> removeExpense index l !! k = l !! k)
        /\ (forall k, (index <= k)%nat ->
                      removeExpense index l !! k = l !! S k)
        /\ ((index < length l)%nat ->
            S (length (removeExpense index l)) = length l)
        /\ ((length l <= index)%nat -> removeExpense index l = l)).
Proof.
  split; intros index l.
  - rewrite removeCashEntry_delete. split; [|split; [|split]].
    + intros k Hk. by apply list_lookup_delete_lt.
    + intros k Hk. by apply list_lookup_delete_ge.
    + intros Hi. rewrite length_delete by by apply lookup_lt_is_Some. lia.
    + apply delete_ge_id.
  - rewrite removeExpense_delete. split; [|split; [|split]].
    + intros k Hk. by apply list_lookup_delete_lt.
    + intros k Hk. by apply list_lookup_delete_ge.
    + intros Hi. rewrite length_delete by by apply lookup_lt_is_Some. lia.
    + apply delete_ge_id.
Qed.

Lemma removed_row_positions_witness :
  removeCashEntry 1 DEFAULT_CASH_ENTRIES !! 1%nat
  = Some (mkCashEntry (Some 2000) None)
  /\ S (length (removeCashEntry 1 DEFAULT_CASH_ENTRIES)) = 3%nat
  /\ removeExpense 4 [mkExpenseEntry "ice" (Some 15)]
     = [mkExpenseEntry "ice" (Some 15)].
Proof.
  destruct removed_row_positions as [Hc He].
  destruct (Hc 1%nat DEFAULT_CASH_ENTRIES) as (_ & Hge & Hlen & _).
  destruct (He 4%nat [mkExpenseEntry "ice" (Some 15)]) as (_ & _ & _ & Hid).
  split; [|split].
  - rewrite Hge by lia. reflexivity.
  - apply Hlen. simpl. lia.
  - apply Hid. simpl. lia.
Defined.

(** X9. Removing the row that [addCashEntry] or [addExpense] has just
    added gives the list back. *)
Theorem add_then_remove_last :
  (forall l : list CashEntry, removeCashEntry (length l) (addCashEntry l) = l)
  /\ (forall l : list ExpenseEntry,
        removeExpense (length l) (addExpense l) = l).
Proof.
  split; intros l.
  - rewrite removeCashEntry_delete. unfold addCashEntry.
    rewrite delete_middle. apply app_nil_r.
  - rewrite removeExpense_delete. unfold addExpense.
    rewrite delete_middle. apply app_nil_r.
Qed.

(** ** Typing into a row *)

Lemma non_expense_income now f imputation entry x :
  imputation <> "Gastos Operativos" ->
  List.filter (fun e => negb (isExpenseLog e))
    (incomeEntries now f imputation entry x)
  = incomeEntries now f imputation entry x.
Proof.
  intros Hne. unfold incomeEntries.
  destruct x as [v|]; [|done]. destruct (0 <? v); [|done].
  simpl. unfold isExpenseLog. simpl.
  destruct (String.eqb_spec imputation "Gastos Operativos"); done.
Qed.

Lemma non_expense_expenses now f (l : list ExpenseEntry) :
  List.filter (fun e => negb (isExpenseLog e)) (map (expenseLog now f) l) = [].
Proof. induction l as [|e l IH]; simpl; done. Qed.

(** The entries of the batch that are not expense entries. *)
Lemma non_expense_logs_of_batch (now : string) (f : FormState) :
  List.filter (fun e => negb (isExpenseLog e)) (buildLogEntries now f)
  = incomeEntries now f "Ventas con Tarjeta" "Ingreso: First Data"
      (firstDataIncome f)
    ++ incomeEntries now f "Ventas Delivery" "Ingreso: PedidosYa"
         (pedidosYaIncome f)
    ++ incomeEntries now f "Ventas Digitales" "Ingreso: Mercado Pago"
         (mercadoPagoIncome f)
    ++ cashIncomeEntries now f
    ++ summaryEntries now f.
Proof.
  rewrite buildLogEntries_batchSpec. unfold batchSpec.
  rewrite !List.filter_app.
  rewrite !non_expense_income by done.
  rewrite non_expense_expenses.
  unfold cashIncomeEntries, summaryEntries.
  by destruct (0 <? cashSubtotal f), (dailySummary f).
Qed.

Lemma amounts_detail_keyup (index : nat) (v : string)
    (l entries : list ExpenseEntry) :
  onExpenseDetailKeyup index v l = Some entries ->
  map amount entries = map amount l /\ length entries = length l.
Proof.
  unfold onExpenseDetailKeyup. cbv zeta.
  destruct (l !! index) as [old|] eqn:Hold; [|done]. intros [= <-].
  split; [|by rewrite length_insert].
  change (map amount ?x) with (amount <$> x).
  rewrite list_fmap_insert. cbn [amount].
  apply list_insert_id. by rewrite list_lookup_fmap, Hold.
Qed.

Lemma fold_amounts_ext (l l' : list ExpenseEntry) (acc : Z) :
  map amount l' = map amount l ->
  fold_left (fun acc expense => acc + (amount expense ?? 0)) l' acc
  = fold_left (fun acc expense => acc + (amount expense ?? 0)) l acc.
Proof.
  revert l' acc.
  induction l as [|e l IH]; intros [|e' l'] acc H; simpl in *; try done.
  injection H as He Hl. rewrite He. by apply IH.
Qed.

Lemma expensesSubtotal_of_amounts (f f' : FormState) :
  map amount (expenses f') = map amount (expenses f) ->
  expensesSubtotal f' = expensesSubtotal f.
Proof. intros H. unfold expensesSubtotal, reduce. by apply fold_amounts_ext. Qed.

(** X10. Typing a detail into an expense row changes no amount and so
    no total: [expensesSubtotal], [cashSubtotal], [netTotal],
    [absoluteTotal] and [difference] are what they were, and so is every
    entry of the batch that is not an expense entry. *)
Theorem detail_keyup_changes_no_total :
  forall (now : string) (f : FormState) (index : nat) (v : string)
         (entries : list ExpenseEntry),
    onExpenseDetailKeyup index v (expenses f) = Some entries ->
    map amount entries = map amount (expenses f)
    /\ expensesSubtotal (set_expenses entries f) = expensesSubtotal f
    /\ cashSubtotal (set_expenses entries f) = cashSubtotal f
    /\ netTotal (set_expenses entries f) = netTotal f
    /\ absoluteTotal (set_expenses entries f) = absoluteTotal f
    /\ difference (set_expenses entries f) = difference f
    /\ List.filter (fun e => negb (isExpenseLog e))
         (buildLogEntries now (set_expenses entries f))
       = List.filter (fun e => negb (isExpenseLog e)) (buildLogEntries now f).
Proof.
  intros now f index v entries Hk.
  destruct (amounts_detail_keyup index v _ _ Hk) as [Ha _].
  assert (He : expensesSubtotal (set_expenses entries f) = expensesSubtotal f)
    by by apply expensesSubtotal_of_amounts.
  assert (Hc : cashSubtotal (set_expenses entries f) = cashSubtotal f)
    by reflexivity.
  assert (Hd : difference (set_expenses entries f) = difference f).
  { unfold difference, absoluteTotal, totalIncome. by rewrite He, Hc. }
  split; [exact Ha|]. split; [exact He|]. split; [exact Hc|].
  split; [|split; [|split; [exact Hd|]]].
  - unfold netTotal, totalIncome. by rewrite He, Hc.
  - unfold absoluteTotal, totalIncome. by rewrite He, Hc.
  - rewrite !non_expense_logs_of_batch.
    unfold incomeEntries, cashIncomeEntries, summaryEntries.
    by rewrite Hc, Hd.
Qed.

Lemma detail_keyup_changes_no_total_witness :
  let f := mkFormState "Ana" "tarde" (Some 100) None None (Some 90) []
             [mkExpenseEntry "" (Some 15)] in
  onExpenseDetailKeyup 0 "ice" (expenses f) = Some [mkExpenseEntry "ice" (Some 15)]
  /\ difference (set_expenses [mkExpenseEntry "ice" (Some 15)] f) = 25
  /\ map le_amount (buildLogEntries "t" f) = [100; 90; 25]
  /\ map le_amount
       (buildLogEntries "t" (set_expenses [mkExpenseEntry "ice" (Some 15)] f))
     = [100; -15; 90; 25].
Proof.
  intros f.
  destruct (detail_keyup_changes_no_total "t" f 0%nat "ice"
              [mkExpenseEntry "ice" (Some 15)] eq_refl)
    as (_ & _ & _ & _ & _ & Hd & _).
  split; [reflexivity|]. split; [|split; reflexivity].
  rewrite Hd. reflexivity.
Defined.

(** X11. Per-row updates compose in any order: two cash updates that
    address different rows, or different fields of one row, commute; of
    two updates of the same field of the same row the later one stays;
    and a detail update and an amount update on expenses commute
    whatever rows they address. *)
Theorem keyups_commute :
  (forall (i j : nat) (f1 f2 : CashField) (v1 v2 : option Z)
          (l : list CashEntry),
      i <> j \/ f1 <> f2 ->
      onCashEntryKeyup i f1 v1 l ≫= onCashEntryKeyup j f2 v2
      = onCashEntryKeyup j f2 v2 l ≫= onCashEntryKeyup i f1 v1)
  /\ (forall (i : nat) (field : CashField) (v1 v2 : option Z)
             (l : list CashEntry),
        is_Some (l !! i) ->
        onCashEntryKeyup i field v1 l ≫= onCashEntryKeyup i field v2
        = onCashEntryKeyup i field v2 l)
  /\ (forall (i j : nat) (d : string) (a : option Z) (l : list ExpenseEntry),
        onExpenseDetailKeyup i d l ≫= onExpenseAmountKeyup j a
        = onExpenseAmountKeyup j a l ≫= onExpenseDetailKeyup i d).
Proof.
  split; [|split].
  - intros i j f1 f2 v1 v2 l Hne. unfold onCashEntryKeyup. cbv zeta.
    destruct (l !! i) as [x|] eqn:Hi; destruct (l !! j) as [y|] eqn:Hj;
      simpl.
    + destruct (decide (i = j)) as [<-|Hij].
      * assert (x = y) as <- by congruence.
        rewrite !list_lookup_insert_eq by by apply lookup_lt_Some in Hi.
        rewrite !list_insert_insert_eq.
        destruct Hne as [?|Hf]; [done|]. do 2 f_equal.
        by destruct f1, f2.
      * rewrite !list_lookup_insert_ne by done. rewrite Hi, Hj.
        by rewrite list_insert_insert_ne.
    + assert (i <> j) by congruence.
      rewrite list_lookup_insert_ne by done. by rewrite Hj.
    + assert (i <> j) by congruence.
      rewrite list_lookup_insert_ne by done. by rewrite Hi.
    + done.
  - intros i field v1 v2 l [x Hi]. unfold onCashEntryKeyup. cbv zeta.
    rewrite Hi. simpl.
    rewrite list_lookup_insert_eq by by apply lookup_lt_Some in Hi.
    rewrite list_insert_insert_eq. by destruct field.
  - intros i j d a l.
    unfold onExpenseDetailKeyup, onExpenseAmountKeyup. cbv zeta.
    destruct (l !! i) as [x|] eqn:Hi; destruct (l !! j) as [y|] eqn:Hj;
      simpl.
    + destruct (decide (i = j)) as [<-|Hij].
      * assert (x = y) as <- by congruence.
        rewrite !list_lookup_insert_eq by by apply lookup_lt_Some in Hi.
        by rewrite !list_insert_insert_eq.
      * rewrite !list_lookup_insert_ne by done. rewrite Hi, Hj.
        by rewrite list_insert_insert_ne.
    + assert (i <> j) by congruence.
      rewrite list_lookup_insert_ne by done. by rewrite Hj.
    + assert (i <> j) by congruence.
      rewrite list_lookup_insert_ne by done. by rewrite Hi.
    + done.
Qed.

Lemma keyups_commute_witness :
  onCashEntryKeyup 1 Fquantity (Some 3) DEFAULT_CASH_ENTRIES
    ≫= onCashEntryKeyup 1 Fdenomination (Some 5000)
  = Some [ mkCashEntry (Some 20000) None; mkCashEntry (Some 5000) (Some 3);
           mkCashEntry (Some 2000) None ]
  /\ onCashEntryKeyup 0 Fquantity (Some 1) DEFAULT_CASH_ENTRIES
       ≫= onCashEntryKeyup 0 Fquantity (Some 2)
     = Some [ mkCashEntry (Some 20000) (Some 2); mkCashEntry (Some 10000) None;
              mkCashEntry (Some 2000) None ].
Proof.
  destruct keyups_commute as (Hc & Hlast & _). split.
  - rewrite (Hc 1%nat 1%nat Fquantity Fdenomination (Some 3) (Some 5000)
               DEFAULT_CASH_ENTRIES); [reflexivity|].
    right. discriminate.
  - rewrite (Hlast 0%nat Fquantity (Some 1) (Some 2) DEFAULT_CASH_ENTRIES);
      [reflexivity|]. eexists. reflexivity.
Defined.

(** ** What a submit action does and does not touch *)

Lemma count_posts_app (t t' : list Action) :
  count_posts (t ++ t') = (count_posts t + count_posts t')%nat.
Proof.
  induction t as [|a t IH]; simpl; [done|]. destruct a; simpl; by rewrite ?IH.
Qed.

Lemma count_timeouts_app (t t' : list Action) :
  count_timeouts (t ++ t') = (count_timeouts t + count_timeouts t')%nat.
Proof.
  induction t as [|a t IH]; simpl; [done|]. destruct a; simpl; by rewrite ?IH.
Qed.

Lemma count_status_app (s : Status) (t t' : list Action) :
  count_status s (t ++ t') = (count_status s t + count_status s t')%nat.
Proof.
  unfold count_status.
  by rewrite statusWrites_app, List.filter_app, length_app.
Qed.

(** The world [submitForm] returns, in its three cases. *)
Lemma submitForm_cases (now : string) (w : World) :
  submitForm now w
  = match valid (form (app w)), buildLogEntries now (form (app w)) with
    | true, _ :: _ =>
        mkWorld (mkApp (form (app w)) sending None (logHistory (app w)))
          (inflight w ++ [buildLogEntries now (form (app w))]) (timers w)
          (trace w ++ [StatusSet sending; ErrorSet None;
                       Post (buildLogEntries now (form (app w)))])
    | true, [] =>
        mkWorld (mkApp (form (app w)) error (Some MSG_EMPTY)
                   (logHistory (app w)))
          (inflight w) (timers w)
          (trace w ++ [StatusSet sending; ErrorSet None; StatusSet error;
                       ErrorSet (Some MSG_EMPTY)])
    | false, _ =>
        mkWorld (mkApp (form (app w)) error (Some MSG_VALIDATION)
                   (logHistory (app w)))
          (inflight w) (timers w)
          (trace w ++ [StatusSet sending; ErrorSet None; StatusSet error;
                       ErrorSet (Some MSG_VALIDATION)])
    end.
Proof.
  destruct (valid (form (app w))) eqn:Hv.
  - destruct (buildLogEntries now (form (app w))) as [|x l] eqn:Hb.
    + by apply submitForm_empty.
    + rewrite <- Hb. apply submitForm_posts; [done|]. by rewrite Hb.
  - by apply submitForm_invalid.
Qed.

(** X12. [submitForm] never changes a form field, the history or the
    pending timers, and whatever error message was shown before does not
    survive it.  It posts exactly one request, with the batch as body,
    and leaves the status [sending] with no error message, when the
    validation passes and the batch is not empty; in every other case it
    posts nothing and leaves the status [error] with the message of the
    case. *)
Theorem submitForm_effects :
  forall (now : string) (w : World),
    form (app (submitForm now w)) = form (app w)
    /\ logHistory (app (submitForm now w)) = logHistory (app w)
    /\ timers (submitForm now w) = timers w
    /\ match valid (form (app w)), buildLogEntries now (form (app w)) with
       | true, _ :: _ =>
           webhookStatus (app (submitForm now w)) = sending
           /\ webhookError (app (submitForm now w)) = None
           /\ inflight (submitForm now w)
              = inflight w ++ [buildLogEntries now (form (app w))]
           /\ count_posts (trace (submitForm now w))
              = S (count_posts (trace w))
       | true, [] =>
           webhookStatus (app (submitForm now w)) = error
           /\ webhookError (app (submitForm now w)) = Some MSG_EMPTY
           /\ inflight (submitForm now w) = inflight w
           /\ count_posts (trace (submitForm now w)) = count_posts (trace w)
       | false, _ =>
           webhookStatus (app (submitForm now w)) = error
           /\ webhookError (app (submitForm now w)) = Some MSG_VALIDATION
           /\ inflight (submitForm now w) = inflight w
           /\ count_posts (trace (submitForm now w)) = count_posts (trace w)
       end.
Proof.
  intros now w. rewrite !submitForm_cases.
  destruct (valid (form (app w)));
    [destruct (buildLogEntries now (form (app w)))|];
    simpl; rewrite count_posts_app; simpl; repeat split; lia.
Qed.

(** ** The history *)

Lemma step_history (e : Event) (w w' : World) :
  step e w = Some w' ->
  exists newer, logHistory (app w') = newer ++ logHistory (app w).
Proof.
  intros Hs. destruct (is_form_event e) eqn:Ef.
  { destruct (step_form_event e w w' Ef Hs) as (_ & _ & H & _).
    exists []. by rewrite H. }
  destruct e; try discriminate; cbn [step] in Hs.
  - injection Hs as <-. exists []. rewrite submitForm_cases.
    by destruct (valid (form (app w))),
         (buildLogEntries now (form (app w))).
  - destruct (answer k w) as [[b w1]|] eqn:Ea; [|done].
    apply answer_Some in Ea as [_ ->]. injection Hs as <-.
    exists b. by rewrite onNext_eq.
  - destruct (answer k w) as [[b w1]|] eqn:Ea; [|done].
    apply answer_Some in Ea as [_ ->]. injection Hs as <-.
    exists []. by rewrite onError_eq.
  - unfold fire in Hs. destruct (timers w !! k); [|done].
    injection Hs as <-. by exists [].
Qed.

(** X13. The history is never trimmed or reordered: whatever events
    occur, the history before them is the tail of the history after
    them. *)
Theorem history_only_grows_in_front :
  forall (es : list Event) (w w' : World),
    run es w = Some w' ->
    exists newer, logHistory (app w') = newer ++ logHistory (app w).
Proof.
  induction es as [|e es IH]; intros w w' Hr; simpl in Hr.
  - injection Hr as <-. by exists [].
  - destruct (step e w) as [w1|] eqn:Es; [|done].
    destruct (step_history e w w1 Es) as [n1 H1].
    destruct (IH w1 w' Hr) as [n2 H2].
    exists (n2 ++ n1). by rewrite H2, H1, app_assoc.
Qed.

Lemma history_only_grows_in_front_witness :
  let w := mkWorld
             (mkApp (mkFormState "Ana" "tarde" (Some 100) None None None [] [])
                    idle None
                    [mkLogEntry "t0" "Luz" "tarde" "Cierre"
                       "Resumen Diario (Manual)" 7])
             [] [] [] in
  exists w' newer,
    run [Submit "t"; RemoveCashEntry 0; HttpNext 0; TimerFires 0] w = Some w'
    /\ logHistory (app w') = newer ++ logHistory (app w).
Proof.
  intros w.
  pose (w' := default w (run [Submit "t"; RemoveCashEntry 0; HttpNext 0;
                              TimerFires 0] w)).
  assert (Hr : run [Submit "t"; RemoveCashEntry 0; HttpNext 0; TimerFires 0] w
               = Some w') by (vm_compute; reflexivity).
  destruct (history_only_grows_in_front _ w w' Hr) as [newer Hn].
  exists w', newer. split; [exact Hr|exact Hn].
Defined.

Lemma submitted_only_step (e : Event) (w w' : World) :
  submitted_only w -> step e w = Some w' -> submitted_only w'.
Proof.
  intros [Hh Hi] Hs. destruct (is_form_event e) eqn:Ef.
  { destruct (step_form_event e w w' Ef Hs) as (_ & _ & H1 & H2 & _).
    unfold submitted_only. by rewrite H1, H2. }
  destruct e; try discriminate; cbn [step] in Hs.
  - injection Hs as <-. rewrite submitForm_cases.
    destruct (valid (form (app w))) eqn:Hv; [|done].
    destruct (buildLogEntries now (form (app w))) as [|x l] eqn:Hb; [done|].
    split; [done|]. simpl. apply Forall_app. split; [done|].
    constructor; [|constructor]. split; [done|].
    rewrite <- Hb. apply valid_true in Hv as [Hn Hsh].
    eapply Forall_impl; [apply buildLogEntries_stamped|].
    intros y (_ & Hy1 & Hy2 & Hy3). unfold submitted_entry.
    by rewrite Hy1, Hy2.
  - destruct (answer k w) as [[b w1]|] eqn:Ea; [|done].
    apply answer_Some in Ea as [Hk ->]. injection Hs as <-.
    rewrite onNext_eq. split; simpl.
    + apply Forall_app. split; [|done].
      by apply (Forall_lookup_1 _ _ _ _ Hi Hk).
    + by apply Forall_delete.
  - destruct (answer k w) as [[b w1]|] eqn:Ea; [|done].
    apply answer_Some in Ea as [Hk ->]. injection Hs as <-.
    rewrite onError_eq. split; simpl; [done|]. by apply Forall_delete.
  - unfold fire in Hs. destruct (timers w !! k); [|done].
    by injection Hs as <-.
Qed.

(** X14. In every execution from the initial state, each entry of the
    history and of every request still in flight has a non-empty closer
    name and shift and one of the six categories, and no request was
    posted with an empty body. *)
Theorem history_holds_submitted_entries :
  forall (es : list Event) (w : World),
    run es initialWorld = Some w ->
    Forall (fun e => le_closerName e <> "" /\ le_shift e <> ""
                     /\ accountingImputation e ∈ IMPUTATIONS)
           (logHistory (app w))
    /\ Forall (fun body =>
                 body <> []
                 /\ Forall (fun e => le_closerName e <> "" /\ le_shift e <> ""
                                     /\ accountingImputation e ∈ IMPUTATIONS)
                           body)
              (inflight w).
Proof.
  intros es w Hr.
  assert (H : forall es w0 w1, submitted_only w0 -> run es w0 = Some w1 ->
                               submitted_only w1).
  { clear. induction es as [|e es IH]; intros w0 w1 H0 Hr; simpl in Hr.
    - by injection Hr as <-.
    - destruct (step e w0) as [w'|] eqn:Es; [|done].
      apply (IH w' w1); [|done]. by apply (submitted_only_step e w0). }
  apply (H es initialWorld w); [|done]. by split; constructor.
Qed.

Lemma history_holds_submitted_entries_witness :
  let es := [ NameKeyup "Ana"; Submit "t0"; DailySummaryKeyup (Some 0);
              Submit "t1"; NameKeyup ""; Submit "t2"; HttpNext 0 ] in
  exists w,
    run es initialWorld = Some w
    /\ map day (logHistory (app w)) = ["t1"; "t1"]
    /\ Forall (fun e => le_closerName e <> "" /\ le_shift e <> ""
                        /\ accountingImputation e ∈ IMPUTATIONS)
              (logHistory (app w)).
Proof.
  intros es.
  pose (w := default initialWorld (run es initialWorld)).
  assert (Hr : run es initialWorld = Some w) by (vm_compute; reflexivity).
  exists w. split; [exact Hr|]. split; [vm_compute; reflexivity|].
  exact (proj1 (history_holds_submitted_entries es w Hr)).
Defined.

(** X15. Right after a successful submission the form is blank again: a
    submit action then fails the validation, whatever was submitted
    before, posts nothing and leaves the history as it is. *)
Theorem resubmit_after_success_is_invalid :
  forall (k : nat) (now : string) (w w1 : World),
    step (HttpNext k) w = Some w1 ->
    valid (form (app w1)) = false
    /\ webhookStatus (app (submitForm now w1)) = error
    /\ webhookError (app (submitForm now w1)) = Some MSG_VALIDATION
    /\ inflight (submitForm now w1) = inflight w1
    /\ logHistory (app (submitForm now w1)) = logHistory (app w1)
    /\ buildLogEntries now (form (app w1)) = [].
Proof.
  intros k now w w1 Hs. cbn [step] in Hs.
  destruct (answer k w) as [[b w0]|] eqn:Ea; [|done].
  injection Hs as <-. rewrite onNext_eq.
  assert (Hv : valid (form (app
             (mkWorld (mkApp defaultForm success (webhookError (app w0))
                         (b ++ logHistory (app w0)))
                (inflight w0) (timers w0 ++ [5000])
                (trace w0 ++ [StatusSet success; Timeout 5000])))) = false)
    by reflexivity.
  split; [exact Hv|]. rewrite (submitForm_invalid now _ Hv). done.
Qed.

Lemma resubmit_after_success_is_invalid_witness :
  let es := [ NameKeyup "Ana"; FirstDataKeyup (Some 100); Submit "t1" ] in
  exists w w1,
    run es initialWorld = Some w
    /\ step (HttpNext 0) w = Some w1
    /\ webhookError (app (submitForm "t2" w1)) = Some MSG_VALIDATION.
Proof.
  intros es.
  pose (w := default initialWorld (run es initialWorld)).
  pose (w1 := default initialWorld (step (HttpNext 0) w)).
  assert (Hr : run es initialWorld = Some w) by (vm_compute; reflexivity).
  assert (Hs : step (HttpNext 0) w = Some w1) by (vm_compute; reflexivity).
  exists w, w1. split; [exact Hr|]. split; [exact Hs|].
  apply (resubmit_after_success_is_invalid 0%nat "t2" w w1 Hs).
Defined.

(** ** Requests, successes and timers *)

Lemma accounted_step (e : Event) (w w' : World) :
  accounted w -> step e w = Some w' -> accounted w'.
Proof.
  intros (H1 & H2 & H3) Hs. destruct (is_form_event e) eqn:Ef.
  { destruct (step_form_event e w w' Ef Hs) as (_ & _ & _ & E1 & E2 & E3).
    unfold accounted. by rewrite E1, E2, E3. }
  destruct e; try discriminate; cbn [step] in Hs.
  - injection Hs as <-. rewrite submitForm_cases. unfold accounted.
    destruct (valid (form (app w)));
      [destruct (buildLogEntries now (form (app w)))|];
      simpl; rewrite ?length_app, !count_status_app, count_timeouts_app,
        count_posts_app; simpl; unfold count_status in *; simpl; lia.
  - destruct (answer k w) as [[b w1]|] eqn:Ea; [|done].
    apply answer_Some in Ea as [Hk ->]. injection Hs as <-.
    rewrite onNext_eq. unfold accounted. simpl.
    rewrite length_delete by eauto. apply lookup_lt_Some in Hk.
    rewrite ?length_app, !count_status_app, count_timeouts_app,
      count_posts_app. simpl. unfold count_status in *. simpl. lia.
  - destruct (answer k w) as [[b w1]|] eqn:Ea; [|done].
    apply answer_Some in Ea as [Hk ->]. injection Hs as <-.
    rewrite onError_eq. unfold accounted. simpl.
    rewrite length_delete by eauto. apply lookup_lt_Some in Hk.
    rewrite !count_status_app, count_timeouts_app, count_posts_app.
    simpl. unfold count_status in *. simpl. lia.
  - unfold fire in Hs. destruct (timers w !! k) as [ms|] eqn:Hk; [|done].
    injection Hs as <-. rewrite onTimeout_eq. unfold accounted. simpl.
    rewrite length_delete by eauto. apply lookup_lt_Some in Hk.
    rewrite !count_status_app, count_timeouts_app, count_posts_app.
    simpl. unfold count_status in *. simpl. lia.
Qed.

(** X16. In every execution from the initial state, with or without a
    submit action while a request is in flight: a timer is set once for
    each success and at no other time, the status [idle] is written only
    by a timer that fires, once each, and successes and requests in
    flight together never outnumber the requests posted. *)
Theorem successes_timers_and_posts :
  forall (es : list Event) (w : World),
    run es initialWorld = Some w ->
    count_timeouts (trace w) = count_status success (trace w)
    /\ (count_status idle (trace w) + length (timers w))%nat
       = count_timeouts (trace w)
    /\ (length (inflight w) + count_status success (trace w)
        <= count_posts (trace w))%nat.
Proof.
  intros es w Hr.
  assert (H : forall es w0 w1, accounted w0 -> run es w0 = Some w1 ->
                               accounted w1).
  { clear. induction es as [|e es IH]; intros w0 w1 H0 Hr; simpl in Hr.
    - by injection Hr as <-.
    - destruct (step e w0) as [w'|] eqn:Es; [|done].
      apply (IH w' w1); [|done]. by apply (accounted_step e w0). }
  apply (H es initialWorld w); [|done]. repeat split. exact (le_n 0).
Qed.

Lemma successes_timers_and_posts_witness :
  let es := [ NameKeyup "Ana"; FirstDataKeyup (Some 100); Submit "t1";
              Submit "t2"; HttpNext 1; HttpError 0 500; TimerFires 0 ] in
  exists w,
    run es initialWorld = Some w
    /\ count_posts (trace w) = 2%nat
    /\ count_timeouts (trace w) = count_status success (trace w).
Proof.
  intros es.
  pose (w := default initialWorld (run es initialWorld)).
  assert (Hr : run es initialWorld = Some w) by (vm_compute; reflexivity).
  exists w. split; [exact Hr|]. split; [vm_compute; reflexivity|].
  exact (proj1 (successes_timers_and_posts es w Hr)).
Defined.

Lemma answer_at (w : World) (pre : list (list LogEntry))
    (body : list LogEntry) (post : list (list LogEntry)) :
  inflight w = pre ++ body :: post ->
  answer (length pre) w
  = Some (body, mkWorld (app w) (pre ++ post) (timers w) (trace w)).
Proof.
  intros Hi. unfold answer. rewrite Hi.
  rewrite list_lookup_middle by done. by rewrite delete_middle.
Qed.

(** X17. [submitForm] has no guard against a second submit action: two
    in a row on a valid form with movements post two requests with the
    same entries but for the timestamp, and when both succeed, in
    either order, the history holds both batches. *)
Theorem double_submit_records_twice :
  forall (now1 now2 : string) (w : World),
    valid (form (app w)) = true ->
    buildLogEntries now1 (form (app w)) <> [] ->
    let b1 := buildLogEntries now1 (form (app w)) in
    let b2 := buildLogEntries now2 (form (app w)) in
    let k := length (inflight w) in
    map (fun e => (accountingImputation e, accountEntry e, le_amount e)) b2
    = map (fun e => (accountingImputation e, accountEntry e, le_amount e)) b1
    /\ (exists w',
          run [Submit now1; Submit now2; HttpNext k; HttpNext k] w = Some w'
          /\ logHistory (app w') = b2 ++ b1 ++ logHistory (app w)
          /\ inflight w' = inflight w)
    /\ (exists w',
          run [Submit now1; Submit now2; HttpNext (S k); HttpNext k] w
          = Some w'
          /\ logHistory (app w') = b1 ++ b2 ++ logHistory (app w)
          /\ inflight w' = inflight w).
Proof.
  intros now1 now2 w Hv Hb1 b1 b2 k.
  assert (Hmap : map (fun e => (accountingImputation e, accountEntry e,
                                le_amount e)) b2
                 = map (fun e => (accountingImputation e, accountEntry e,
                                  le_amount e)) b1).
  { unfold b1, b2. generalize (form (app w)). intros f.
    rewrite !buildLogEntries_batchSpec. unfold batchSpec.
    rewrite !map_app, !map_map.
    unfold incomeEntries, cashIncomeEntries, summaryEntries.
    destruct (firstDataIncome f) as [a|]; try destruct (0 <? a);
    destruct (pedidosYaIncome f) as [b|]; try destruct (0 <? b);
    destruct (mercadoPagoIncome f) as [c|]; try destruct (0 <? c);
    destruct (0 <? cashSubtotal f), (dailySummary f); reflexivity. }
  assert (Hb2 : b2 <> []).
  { intros H2. apply Hb1. fold b1. rewrite H2 in Hmap.
    symmetry in Hmap. by apply map_eq_nil in Hmap. }
  split; [exact Hmap|].
  subst k.
  split.
  - eexists. split.
    + cbn [run step]. rewrite (submitForm_posts now1 w Hv Hb1).
      match goal with
      | |- context [submitForm now2 ?x] =>
          rewrite (submitForm_posts now2 x Hv Hb2)
      end.
      cbn [app form inflight timers trace logHistory]. fold b1 b2.
      rewrite (answer_at _ (inflight w) b1 [b2])
        by (cbn [inflight]; by rewrite <- app_assoc).
      rewrite onNext_eq. cbn [app form inflight timers trace logHistory].
      rewrite (answer_at _ (inflight w) b2 []) by reflexivity.
      rewrite onNext_eq. reflexivity.
    + cbn [app inflight logHistory webhookError].
      by rewrite app_nil_r.
  - eexists. split.
    + cbn [run step]. rewrite (submitForm_posts now1 w Hv Hb1).
      match goal with
      | |- context [submitForm now2 ?x] =>
          rewrite (submitForm_posts now2 x Hv Hb2)
      end.
      cbn [app form inflight timers trace logHistory]. fold b1 b2.
      replace (S (length (inflight w))) with (length (inflight w ++ [b1]))
        by (rewrite length_app; simpl; lia).
      rewrite (answer_at _ (inflight w ++ [b1]) b2 []) by reflexivity.
      rewrite onNext_eq. cbn [app form inflight timers trace logHistory].
      rewrite app_nil_r.
      rewrite (answer_at _ (inflight w) b1 []) by reflexivity.
      rewrite onNext_eq. reflexivity.
    + cbn [app inflight logHistory webhookError].
      by rewrite app_nil_r.
Qed.

Lemma double_submit_records_twice_witness :
  let w := mkWorld
             (mkApp (mkFormState "Ana" "tarde" (Some 100) None None None [] [])
                    idle None []) [] [] [] in
  exists w',
    run [Submit "t1"; Submit "t2"; HttpNext 0; HttpNext 0] w = Some w'
    /\ map (fun e => (day e, le_amount e)) (logHistory (app w'))
       = [("t2", 100); ("t1", 100)].
Proof.
  intros w.
  destruct (double_submit_records_twice "t1" "t2" w)
    as (_ & (w' & Hr & Hh & _) & _).
  - reflexivity.
  - discriminate.
  - exists w'. split; [exact Hr|]. rewrite Hh. reflexivity.
Defined.

(** ** The error message *)

Lemma string_length_app (s t : string) :
  String.length (s +:+ t) = (String.length s + String.length t)%nat.
Proof. induction s as [|c s IH]; simpl; [done|]. by rewrite IH. Qed.

Lemma string_app_inv_tail (s1 s2 t : string) :
  s1 +:+ t = s2 +:+ t -> s1 = s2.
Proof.
  intros H.
  assert (Hl : String.length s1 = String.length s2).
  { apply (f_equal String.length) in H.
    rewrite !string_length_app in H. lia. }
  revert s2 H Hl. induction s1 as [|c s1 IH]; intros [|d s2] H Hl;
    simpl in *; try done.
  injection H as -> H. f_equal. apply IH; [done|lia].
Qed.

(** X18. The message of the [error] callback tells the failures apart:
    two failures give the same message only when they carry the same
    [err.status]. *)
Theorem errorMessage_determines_status :
  forall s1 s2 : Z, errorMessage s1 = errorMessage s2 -> s1 = s2.
Proof.
  intros s1 s2. unfold errorMessage. cbv zeta.
  destruct (Z.eqb_spec s1 0) as [->|H1], (Z.eqb_spec s2 0) as [->|H2];
    intros H; [done| | |].
  - symmetry in H. by apply server_message_not_network in H.
  - by apply server_message_not_network in H.
  - apply (inj pretty).
    apply (string_app_inv_tail _ _ ".").
    by apply (inj (String.append "Error del servidor: ")).
Qed.

Lemma errorMessage_determines_status_witness :
  errorMessage (400 + 4) = errorMessage 404
  /\ 400 + 4 = 404
  /\ errorMessage 404 <> errorMessage 500.
Proof.
  split; [reflexivity|]. split.
  - apply (errorMessage_determines_status (400 + 4) 404). reflexivity.
  - intros H. apply errorMessage_determines_status in H. discriminate.
Defined.

(** ** The cash subtotal on the heap *)











